(** * Verification of the proximity, map-layout and affordability logic
      of static/js/app.js (Database-Project).

    Numbers of the map code are modelled as real numbers [R] (the
    haversine formula, the jitter of coincident markers and the bounds
    fold); the affordability form and calculator are modelled over [Q]. *)

From Stdlib Require Import Reals Lra Lia List String Ascii Bool Arith ZArith.
From Stdlib Require Import QArith Qround Qreals.
From Stdlib Require Lqa.
Import ListNotations.

Open Scope R_scope.

(** ** Results of JavaScript code that may throw *)

Inductive jserror := TypeError | InvalidLngLat.

Inductive jsresult (A : Type) := Ok (a : A) | Throw (e : jserror).
Arguments Ok {A} a.
Arguments Throw {A} e.

Definition bind {A B} (m : jsresult A) (k : A -> jsresult B) : jsresult B :=
  match m with Ok a => k a | Throw e => Throw e end.

Notation "x <- m ;; k" := (bind m (fun x => k))
  (at level 61, m at next level, right associativity).

(** ** GeoJSON features as the code reads them *)

(** [geometry.coordinates]: missing (undefined), an array of numbers, or
    some other value that is not an array. *)
Inductive coordsv := CMissing | CArr (l : list R) | CNotArray.

Record geometry := mkGeometry { gtype : string; coordinates : coordsv }.

(** [properties]: the four fields the code consults ([None] = undefined). *)
Record props := mkProps {
  CLASS : option string; amenity_type : option string;
  NAME : option string; name : option string }.

Definition empty_props := mkProps None None None None.

Record feature := mkFeature {
  fgeometry : option geometry;  (** [None]: geometry missing *)
  properties : option props }.

(** An element of [features]: [None] is a [null] entry. *)
Definition jsfeature := option feature.

(** [amenitiesData]: [None] is the absent cache ([null]); a present
    cache has an optional [features] field. *)
Definition amenities_cache := option (option (list jsfeature)).

(** JavaScript truthiness of an optional string ([""] is falsy). *)
Definition js_or (x : option string) (d : string) : string :=
  match x with Some s => if String.eqb s "" then d else s | None => d end.

(** ** distanceInMeters *)

(** [Math.atan2] on real arguments (signed zeros do not exist in [R]). *)
Definition atan2 (y x : R) : R :=
  if Rlt_dec 0 x then atan (y / x)
  else if Rlt_dec x 0 then
    (if Rle_dec 0 y then atan (y / x) + PI else atan (y / x) - PI)
  else if Rlt_dec 0 y then PI / 2
  else if Rlt_dec y 0 then - (PI / 2)
  else 0.

Definition toRad (d : R) : R := (d * PI) / 180.

(** The haversine formula over exact reals.  In doubles the term [a] can
    round above 1 near antipodal points, and [Math.sqrt(1 - a)] is then
    NaN; the model does not represent that rounding. *)
Definition distanceInMeters (lat1 lng1 lat2 lng2 : R) : R :=
  let R0 := 6371000 in
  let dLat := toRad (lat2 - lat1) in
  let dLng := toRad (lng2 - lng1) in
  let a :=
    sin (dLat / 2) * sin (dLat / 2) +
    cos (toRad lat1) * cos (toRad lat2) *
    sin (dLng / 2) * sin (dLng / 2) in
  let c := 2 * atan2 (sqrt a) (sqrt (1 - a)) in
  R0 * c.

(** ** getNearbyAmenities *)

Definition Rleb (x y : R) : bool := if Rle_dec x y then true else false.

(** The predicate of the [filter] call. *)
Definition nearby_keep (lat lng radiusMeters : R) (f : jsfeature) : bool :=
  match f with
  | None => false
  | Some f =>
    match fgeometry f with
    | None => false
    | Some g =>
      if negb (String.eqb (gtype g) "Point") then false else
      (* const coords = f.geometry.coordinates || [] *)
      match coordinates g with
      | CArr (fLng :: fLat :: _) => Rleb (distanceInMeters lat lng fLat fLng) radiusMeters
      | _ => false
      end
    end
  end.

Definition getNearbyAmenities (amenitiesData : amenities_cache)
    (lat lng radiusMeters : R) : list jsfeature :=
  match amenitiesData with
  | None => []
  | Some None => []
  | Some (Some features) => filter (nearby_keep lat lng radiusMeters) features
  end.

(** ** getAmenityConfig and AMENITY_ICONS *)

Record amenity_config := mkConfig { icon : string; color : string; label : string }.

Local Open Scope string_scope.
Definition cfg_MRT := mkConfig "🚇" "#dc2626" "MRT Station".
Definition cfg_SCHOOL := mkConfig "🏫" "#2563eb" "School".
Definition cfg_CLINIC := mkConfig "🏥" "#059669" "Clinic".
Definition cfg_SUPERMARKET := mkConfig "🛒" "#ea580c" "Supermarket".
Definition cfg_PARK := mkConfig "🌳" "#16a34a" "Park".
Definition cfg_DEFAULT := mkConfig "📍" "#10b981" "Amenity".
Local Close Scope string_scope.

(** The object literal, as an association list in source order. *)
Definition AMENITY_ICONS : list (string * amenity_config) :=
  [("MRT_STATION"%string, cfg_MRT); ("SCHOOL"%string, cfg_SCHOOL);
   ("CLINIC"%string, cfg_CLINIC); ("SUPERMARKET"%string, cfg_SUPERMARKET);
   ("PARK"%string, cfg_PARK); ("DEFAULT"%string, cfg_DEFAULT)].

Fixpoint lookup_icon (k : string) (t : list (string * amenity_config)) : option amenity_config :=
  match t with
  | [] => None
  | (k', v) :: t' => if String.eqb k k' then Some v else lookup_icon k t'
  end.

(** [String.prototype.toUpperCase] on ASCII text. *)
Definition ascii_upper (c : ascii) : ascii :=
  let n := nat_of_ascii c in
  if (97 <=? n)%nat && (n <=? 122)%nat then ascii_of_nat (n - 32) else c.

Fixpoint toUpperCase (s : string) : string :=
  match s with
  | EmptyString => EmptyString
  | String c s' => String (ascii_upper c) (toUpperCase s')
  end.

(** [amenityType ? amenityType.toUpperCase() : 'DEFAULT']; [None] is
    [null]/[undefined], and the empty string is falsy. *)
Definition getAmenityConfig (amenityType : option string) : amenity_config :=
  let type := match amenityType with
              | Some s => if String.eqb s "" then "DEFAULT"%string else toUpperCase s
              | None => "DEFAULT"%string
              end in
  match lookup_icon type AMENITY_ICONS with
  | Some c => c
  | None => cfg_DEFAULT
  end.

(** ** Number.prototype.toFixed(6), as a grouping key

    [toFixed] writes a sign (for [x < 0]) and then either the integer
    [n] nearest to [|x| * 10^6] (ties to the larger [n]) with six
    decimals, or, when [|x| >= 10^21], the plain [ToString] of [|x|].
    The text is determined by, and determines, this structured value;
    the key [`${lng},${lat}`] is a pair of them. *)
Inductive fixed6 := Fixed (neg : bool) (n : Z) | FixedExp (neg : bool) (x : R).

Definition toFixed6 (x : R) : fixed6 :=
  let neg := if Rlt_dec x 0 then true else false in
  let y := if neg then - x else x in
  if Rle_dec (10 ^ 21) y then FixedExp neg y
  else Fixed neg (Int_part (y * 10 ^ 6 + / 2)).

Definition coord_key := (fixed6 * fixed6)%type.

Definition fixed6_eq_dec (a b : fixed6) : {a = b} + {a <> b}.
Proof.
  decide equality; try apply bool_dec; try apply Z.eq_dec; apply Req_EM_T.
Defined.

Definition key_eq_dec (a b : coord_key) : {a = b} + {a <> b}.
Proof. decide equality; apply fixed6_eq_dec. Defined.

Definition key_eqb (a b : coord_key) : bool := if key_eq_dec a b then true else false.

(** [coordCounts]: a JavaScript object used as a map, newest entry first. *)
Definition counts := list (coord_key * nat).

Fixpoint counts_get (k : coord_key) (m : counts) : option nat :=
  match m with
  | [] => None
  | (k', v) :: m' => if key_eq_dec k k' then Some v else counts_get k m'
  end.

Definition counts_set (k : coord_key) (v : nat) (m : counts) : counts := (k, v) :: m.

(** [LngLat.convert([lng, lat])]: the [LngLat] constructor rejects a
    latitude outside [-90, 90]. *)
Definition LngLat_convert (c : R * R) : jsresult (R * R) :=
  if Rle_dec (-90) (snd c) then
    if Rle_dec (snd c) 90 then Ok c else Throw InvalidLngLat
  else Throw InvalidLngLat.

(** ** The marker-placement loop of showNearbyAmenitiesOnMap *)

Record marker := mkMarker {
  m_lng : R; m_lat : R; m_config : amenity_config; m_name : string }.

Record layout_state := mkLayoutState {
  coordCounts : counts; amenityMarkers : list marker; drawable : list jsfeature }.

(** Displacement of the [indexAtCoord]-th amenity at one key. *)
Definition jitter (fLng fLat : R) (indexAtCoord : nat) : R * R :=
  let offsetMeters := 18 in
  let angle := INR (indexAtCoord - 1) * (PI / 3) in
  let metersPerDegLat := 111320 in
  let metersPerDegLng := 111320 * cos ((fLat * PI) / 180) in
  let dLat := (offsetMeters * sin angle) / metersPerDegLat in
  let dLng := (offsetMeters * cos angle) / metersPerDegLng in
  (fLng + dLng, fLat + dLat).

(** One iteration of [nearby.forEach]; [return] leaves the state as it is.
    [Marker.setLngLat] converts the displayed (possibly displaced) point
    with [LngLat_convert]. *)
Definition layout_step (st : layout_state) (f : jsfeature) : jsresult layout_state :=
  match f with
  | None => Throw TypeError                (* feature.geometry on null *)
  | Some ft =>
    let p := match properties ft with Some p => p | None => empty_props end in
    match fgeometry ft with
    | None => Ok st
    | Some g =>
      if negb (String.eqb (gtype g) "Point") then Ok st else
      match coordinates g with
      | CArr l =>
        match nth_error l 0, nth_error l 1 with
        | Some fLng, Some fLat =>
          let key := (toFixed6 fLng, toFixed6 fLat) in
          let indexAtCoord :=
            S (match counts_get key (coordCounts st) with Some c => c | None => 0%nat end) in
          let cc := counts_set key indexAtCoord (coordCounts st) in
          let pos := if (1 <? indexAtCoord)%nat then jitter fLng fLat indexAtCoord
                     else (fLng, fLat) in
          let amenityType := js_or (CLASS p) (js_or (amenity_type p) "DEFAULT"%string) in
          let config := getAmenityConfig (Some amenityType) in
          let nm := js_or (NAME p) (js_or (name p) "Unnamed amenity"%string) in
          (* new mapboxgl.Marker(el).setLngLat([fLng, fLat]) *)
          _ <- LngLat_convert pos ;;
          Ok (mkLayoutState cc
                (amenityMarkers st ++ [mkMarker (fst pos) (snd pos) config nm])
                (drawable st ++ [f]))
        | _, _ => Throw TypeError          (* undefined.toFixed(6) *)
        end
      | _ => Ok st
      end
    end
  end.

Fixpoint layout_loop (st : layout_state) (l : list jsfeature) : jsresult layout_state :=
  match l with
  | [] => Ok st
  | f :: l' => st' <- layout_step st f ;; layout_loop st' l'
  end.

(** layoutForDisplay: the drawn features and their markers. *)
Definition layoutForDisplay (nearby : list jsfeature) : jsresult (list jsfeature * list marker) :=
  st <- layout_loop (mkLayoutState [] [] []) nearby ;;
  Ok (drawable st, amenityMarkers st).

Definition marker_pos (m : marker) : R * R := (m_lng m, m_lat m).

(** Positions as the spec describes them: the first amenity at a rounded
    coordinate keeps its point, the k-th (k >= 2) is moved 18 m at angle
    (k - 1) * 60 degrees, with 111320 m per degree of latitude and
    111320 * cos(latitude) m per degree of longitude. *)
Definition spec_place (p : R * R) (k : nat) : R * R :=
  let '(lng, lat) := p in
  match k with
  | O | S O => (lng, lat)
  | S (S _) =>
    let theta := INR (k - 1) * (60 * PI / 180) in
    (lng + 18 * cos theta / (111320 * cos (lat * PI / 180)),
     lat + 18 * sin theta / 111320)
  end.

Definition rkey (p : R * R) : coord_key := (toFixed6 (fst p), toFixed6 (snd p)).

Definition count_key (k : coord_key) (seen : list (R * R)) : nat :=
  List.length (filter (fun q => key_eqb (rkey q) k) seen).

Fixpoint spec_positions_from (seen : list (R * R)) (ps : list (R * R)) : list (R * R) :=
  match ps with
  | [] => []
  | p :: ps' => spec_place p (S (count_key (rkey p) seen)) :: spec_positions_from (seen ++ [p]) ps'
  end.

Definition spec_positions (ps : list (R * R)) : list (R * R) := spec_positions_from [] ps.

(** The guard of the loop: [!geom || geom.type !== "Point" ||
    !Array.isArray(geom.coordinates)] skips the feature. *)
Definition layout_guard (f : feature) : bool :=
  match fgeometry f with
  | Some g =>
    String.eqb (gtype g) "Point" &&
    match coordinates g with CArr _ => true | _ => false end
  | None => false
  end.

(** Entries the loop handles without throwing: non-null, and every
    feature past the guard has two coordinates. *)
Definition layout_safe (f : jsfeature) : bool :=
  match f with
  | None => false
  | Some ft =>
    if layout_guard ft then
      match fgeometry ft with
      | Some g => match coordinates g with
                  | CArr (_ :: _ :: _) => true
                  | _ => false
                  end
      | None => false
      end
    else true
  end.

Definition dropped (f : jsfeature) : bool :=
  match f with Some ft => negb (layout_guard ft) | None => false end.

(** The point [(lng, lat)] of a feature past the guard. *)
Definition feature_point (f : jsfeature) : option (R * R) :=
  match f with
  | Some ft =>
    if layout_guard ft then
      match fgeometry ft with
      | Some g => match coordinates g with
                  | CArr (x :: y :: _) => Some (x, y)
                  | _ => None
                  end
      | None => None
      end
    else None
  | None => None
  end.

Fixpoint kept_points (l : list jsfeature) : list (R * R) :=
  match l with
  | [] => []
  | f :: l' => match feature_point f with
               | Some p => p :: kept_points l'
               | None => kept_points l'
               end
  end.

(** ** The bounds fold of showAmenitiesOnMap (mapbox-gl LngLatBounds) *)

Record bounds := mkBounds { sw_lng : R; sw_lat : R; ne_lng : R; ne_lat : R }.

(** [new LngLatBounds(sw, ne)]. *)
Definition LngLatBounds_new (sw ne : R * R) : jsresult bounds :=
  s <- LngLat_convert sw ;;
  n <- LngLat_convert ne ;;
  Ok (mkBounds (fst s) (snd s) (fst n) (snd n)).

(** [b.extend([lng, lat])] on bounds whose corners are set. *)
Definition extend (b : bounds) (c : R * R) : jsresult bounds :=
  p <- LngLat_convert c ;;
  Ok (mkBounds (Rmin (fst p) (sw_lng b)) (Rmin (snd p) (sw_lat b))
               (Rmax (fst p) (ne_lng b)) (Rmax (snd p) (ne_lat b))).

Fixpoint reduce_extend (b : bounds) (l : list (R * R)) : jsresult bounds :=
  match l with
  | [] => Ok b
  | c :: l' => b' <- extend b c ;; reduce_extend b' l'
  end.

(** The camera fit: [None] when [coordsList.length > 0] fails, so that
    [fitBounds] is not called; otherwise the bounds handed to it. *)
Definition boundsOf (coordsList : list (R * R)) : jsresult (option bounds) :=
  match coordsList with
  | [] => Ok None
  | c0 :: _ =>
    b0 <- LngLatBounds_new c0 c0 ;;
    b <- reduce_extend b0 coordsList ;;
    Ok (Some b)
  end.

Definition in_bounds (b : bounds) (p : R * R) : Prop :=
  sw_lng b <= fst p <= ne_lng b /\ sw_lat b <= snd p <= ne_lat b.

(** ** showAmenitiesOnMap *)

(** One iteration of [geojson.features.forEach]: a [null] entry throws on
    [feature.geometry]; a feature failing the guard is skipped; otherwise
    [[lng, lat]] is pushed onto [coordsList], the popup's
    [lng.toFixed(5)] and [lat.toFixed(5)] throw when a coordinate is
    undefined, and [Marker.setLngLat([lng, lat])] converts the point. *)
Definition show_amenity_step (coordsList : list (R * R)) (f : jsfeature)
    : jsresult (list (R * R)) :=
  match f with
  | None => Throw TypeError
  | Some ft =>
    if negb (layout_guard ft) then Ok coordsList else
    match fgeometry ft with
    | Some g =>
      match coordinates g with
      | CArr (lng :: lat :: _) =>
        _ <- LngLat_convert (lng, lat) ;;
        Ok (coordsList ++ [(lng, lat)])
      | _ => Throw TypeError
      end
    | None => Ok coordsList
    end
  end.

Fixpoint show_amenity_loop (coordsList : list (R * R)) (l : list jsfeature)
    : jsresult (list (R * R)) :=
  match l with
  | [] => Ok coordsList
  | f :: l' => c <- show_amenity_step coordsList f ;; show_amenity_loop c l'
  end.

(** The outcome of a call with the map present: [None] for the early
    return ([!geojson || !geojson.features]); otherwise the marker
    positions (= [coordsList]), the bounds given to [fitBounds] if any,
    and the count handed to [updateAmenityStats]. *)
Definition showAmenitiesOnMap (geojson : amenities_cache)
    : jsresult (option (list (R * R) * option bounds * nat)) :=
  match geojson with
  | None => Ok None
  | Some None => Ok None
  | Some (Some features) =>
    let amenityCount := List.length features in
    coordsList <- show_amenity_loop [] features ;;
    fit <- boundsOf coordsList ;;
    Ok (Some (coordsList, fit, amenityCount))
  end.

(** ** The affordability calculator *)

Module Afford.
Local Open Scope Q_scope.

Record AffordabilityInput := mkInput {
  income : Q; expenses : Q; interest_rate_pct : Q;
  tenure_years : Z; down_payment_pct : Q }.

Record AffordabilityResult := mkResult {
  max_monthly_payment : Q; max_loan_amount : Q; max_property_value : Q;
  down_payment_required : Q; affordable : bool }.

Inductive afford_error := ValidationError.

(** Modelled from the spec: [evaluate] of the affordability calculator
    behind [/api/affordability] (server code, not among the sources):
    payment cap 30% of gross income, annuity present value (plain
    product when the monthly rate is 0), property value
    [loan / (1 - down_payment_pct/100)] with a ValidationError for
    [down_payment_pct >= 100] or a negative tenure, and a failure
    rather than a negative [max_property_value]. [max_price_per_sqm]
    is an external parameter and is left out. *)
Definition evaluate (inp : AffordabilityInput) : afford_error + AffordabilityResult :=
  if Qle_bool 100 (down_payment_pct inp) then inl ValidationError
  else if (tenure_years inp <? 0)%Z then inl ValidationError
  else
    let disposable_income := income inp - expenses inp in
    let mmp := (3 # 10) * income inp in
    let monthly_rate := (interest_rate_pct inp / 100) / 12 in
    let n := (tenure_years inp * 12)%Z in
    let loan :=
      if Qeq_bool monthly_rate 0 then mmp * inject_Z n
      else mmp * (1 - Qpower (1 + monthly_rate) (- n)) / monthly_rate in
    let mpv := loan / (1 - down_payment_pct inp / 100) in
    if Qlt_le_dec mpv 0 then inl ValidationError
    else inr (mkResult mmp loan mpv (mpv - loan) (Qle_bool mmp disposable_income)).

End Afford.

(** ** The affordability form of setupAffordabilityPanel *)

Module Form.
Local Open Scope Q_scope.

(** JavaScript numbers produced by [parseFloat] and [parseInt]. *)
Inductive jsnum := JNaN | JNum (q : Q) | JInf (neg : bool).

(** Truthiness used by [||]: [NaN] and [0] are falsy. *)
Definition truthy (x : jsnum) : bool :=
  match x with
  | JNaN => false
  | JNum q => negb (Qeq_bool q 0)
  | JInf _ => true
  end.

Definition js_or_num (x d : jsnum) : jsnum := if truthy x then x else d.

Definition is_ws (c : ascii) : bool :=
  let n := nat_of_ascii c in ((9 <=? n) && (n <=? 13))%nat || (n =? 32)%nat.

Fixpoint trim_start (s : string) : string :=
  match s with
  | String c s' => if is_ws c then trim_start s' else s
  | EmptyString => EmptyString
  end.

Definition digit_val (radix : nat) (c : ascii) : option nat :=
  let n := nat_of_ascii c in
  let v := if ((48 <=? n) && (n <=? 57))%nat then Some (n - 48)%nat
           else if ((97 <=? n) && (n <=? 122))%nat then Some (n - 87)%nat
           else if ((65 <=? n) && (n <=? 90))%nat then Some (n - 55)%nat
           else None in
  match v with Some d => if (d <? radix)%nat then Some d else None | None => None end.

(** Longest digit prefix: its value, its length and the rest. *)
Fixpoint digits (radix : nat) (s : string) (acc : Z) (len : nat) : Z * nat * string :=
  match s with
  | String c s' =>
    match digit_val radix c with
    | Some d => digits radix s' (acc * Z.of_nat radix + Z.of_nat d)%Z (S len)
    | None => (acc, len, s)
    end
  | EmptyString => (acc, len, s)
  end.

Definition sign_of (s : string) : bool * string :=
  match s with
  | String "-"%char s' => (true, s')
  | String "+"%char s' => (false, s')
  | _ => (false, s)
  end.

Definition apply_sign (neg : bool) (q : Q) : Q := if neg then - q else q.

(** The optional exponent part of a decimal literal. *)
Definition exponent (s : string) : Z :=
  match s with
  | String e s' =>
    if (Ascii.eqb e "e"%char || Ascii.eqb e "E"%char)%bool then
      let '(eneg, s'') := sign_of s' in
      let '(v, len, _) := digits 10 s'' 0 0 in
      if (len =? 0)%nat then 0%Z else (if eneg then - v else v)%Z
    else 0%Z
  | EmptyString => 0%Z
  end.

(** [parseFloat]: the longest prefix that is a decimal literal. *)
Definition parseFloat (s : string) : jsnum :=
  let '(neg, s1) := sign_of (trim_start s) in
  if String.prefix "Infinity" s1 then JInf neg else
  let '(ip, ilen, s2) := digits 10 s1 0 0 in
  let '(fp, flen, s3) :=
    match s2 with
    | String "."%char s2' => digits 10 s2' ip 0
    | _ => (ip, 0%nat, s2)
    end in
  if ((ilen =? 0) && (flen =? 0))%nat then JNaN else
  let e := (exponent s3 - Z.of_nat flen)%Z in
  JNum (apply_sign neg (inject_Z fp * Qpower 10 e)).

(** [parseInt] with no radix argument: base 10, or 16 after [0x]. *)
Definition parseInt (s : string) : jsnum :=
  let '(neg, s1) := sign_of (trim_start s) in
  let '(radix, s2) :=
    match s1 with
    | String "0"%char (String x s') =>
      if (Ascii.eqb x "x"%char || Ascii.eqb x "X"%char)%bool then (16%nat, s') else (10%nat, s1)
    | _ => (10%nat, s1)
    end in
  let '(v, len, _) := digits radix s2 0 0 in
  if (len =? 0)%nat then JNaN else JNum (apply_sign neg (inject_Z v)).

(** [$("#af-...")?.value]: [None] when the element is missing;
    [parseFloat(undefined)] is [NaN]. *)
Definition field_float (v : option string) : jsnum :=
  match v with Some s => parseFloat s | None => JNaN end.

Definition field_int (v : option string) : jsnum :=
  match v with Some s => parseInt s | None => JNaN end.

Record form_state := mkForm {
  af_income : option string; af_expenses : option string; af_interest : option string;
  af_tenure : option string; af_downpayment : option string }.

Record payload := mkPayload {
  income : jsnum; expenses : jsnum; interest : jsnum;
  tenure_years : jsnum; down_payment_pct : jsnum }.

Definition build_payload (fs : form_state) : payload :=
  mkPayload
    (js_or_num (field_float (af_income fs)) (JNum 0))
    (js_or_num (field_float (af_expenses fs)) (JNum 0))
    (js_or_num (field_float (af_interest fs)) (JNum (26 # 10)))
    (js_or_num (field_int (af_tenure fs)) (JNum 25))
    (js_or_num (field_float (af_downpayment fs)) (JNum 20)).

(** The spec's reading: the parsed value, or the default exactly when the
    field is missing or does not parse. *)
Definition spec_field (parsed : jsnum) (default : Q) : jsnum :=
  match parsed with JNaN => JNum default | x => x end.

End Form.

(** ** Listings on the map: getPriceRange, showListingsOnMap and
    loadAffordableListingsOnMap *)

Module Listings.
Import Form.
Local Open Scope Q_scope.

(** A field of a listing object as the code reads it: [undefined], [null],
    a number or a string. *)
Inductive fval := FUndef | FNull | FNum (x : jsnum) | FStr (s : string).

Definition fval_truthy (v : fval) : bool :=
  match v with
  | FUndef | FNull => false
  | FNum x => truthy x
  | FStr s => negb (String.eqb s "")
  end.

Definition is_nan (x : jsnum) : bool := match x with JNaN => true | _ => false end.

(** [x * c] for a positive constant [c]. *)
Definition js_scale (x : jsnum) (c : Q) : jsnum :=
  match x with JNum q => JNum (q * c) | _ => x end.

(** [Math.round]: the nearest integer, halves rounded up. *)
Definition js_round (x : jsnum) : jsnum :=
  match x with JNum q => JNum (inject_Z (Qfloor (q + (1 # 2)))) | _ => x end.

(** [Math.round(numericPrice * c / 1000) * 1000]. *)
Definition round_to_1000 (x : jsnum) (c : Q) : jsnum :=
  js_scale (js_round (js_scale (js_scale x c) (1 # 1000))) 1000.

(** [typeof price === 'number' ? price : parseFloat(price || '0')]. *)
Definition price_number (price : fval) : jsnum :=
  match price with
  | FNum x => x
  | FStr s => parseFloat (if String.eqb s "" then "0" else s)
  | FUndef | FNull => parseFloat "0"
  end.

(** [getPriceRange]: [None] is [null]; otherwise [min] and [max] (the
    [label] is their [toLocaleString] formatting and is left out). *)
Definition getPriceRange (price : fval) : option (jsnum * jsnum) :=
  let numericPrice := price_number price in
  if negb (truthy numericPrice) || is_nan numericPrice then None
  else Some (round_to_1000 numericPrice (95 # 100), round_to_1000 numericPrice (105 # 100)).

Record listing := mkListing {
  latitude : fval; longitude : fval;
  price : fval; resale_price : fval; estimated_price : fval }.

(** [parseFloat] of a field ([parseFloat(String(x))] is [x] on numbers). *)
Definition parse_val (v : fval) : jsnum :=
  match v with
  | FNum x => x
  | FStr s => parseFloat s
  | FUndef | FNull => JNaN
  end.

(** [[listing.price, listing.resale_price, listing.estimated_price]
    .find(v => v !== undefined && v !== null && v !== '')]. *)
Definition present (v : fval) : bool :=
  match v with FUndef | FNull => false | FStr s => negb (String.eqb s "") | FNum _ => true end.

Definition priceCandidate (l : listing) : option fval :=
  find present [price l; resale_price l; estimated_price l].

(** The [price] handed to [getPriceRange] by showListingsOnMap: a
    number, or [null] when no candidate was found. *)
Definition popup_price (l : listing) : fval :=
  match priceCandidate l with
  | Some (FNum x) => FNum x
  | Some c => if fval_truthy c then FNum (parse_val c) else FNull
  | None => FNull
  end.

(** [new LngLat(lng, lat)]: [NaN] in either coordinate, or a latitude
    outside [-90, 90] (infinite ones included), is rejected. *)
Definition lnglat_ok (lng lat : jsnum) : bool :=
  match lng, lat with
  | JNaN, _ => false
  | _, JNaN => false
  | _, JInf _ => false
  | _, JNum q => Qle_bool (-90) q && Qle_bool q 90
  end.

(** A listing marker: its position and the popup's price range. *)
Definition lmarker := (jsnum * jsnum * option (jsnum * jsnum))%type.

(** One iteration of [listings.forEach]. *)
Definition show_listing_step (acc : list lmarker) (l : listing) : jsresult (list lmarker) :=
  if negb (fval_truthy (latitude l)) || negb (fval_truthy (longitude l)) then Ok acc else
  let lng := parse_val (longitude l) in
  let lat := parse_val (latitude l) in
  let priceRange := getPriceRange (popup_price l) in
  if lnglat_ok lng lat then Ok (acc ++ [(lng, lat, priceRange)]) else Throw InvalidLngLat.

(** The loop; on a throw the markers already added stay on the map. *)
Fixpoint listing_loop (acc : list lmarker) (ls : list listing) : list lmarker * option jserror :=
  match ls with
  | [] => (acc, None)
  | l :: ls' =>
    match show_listing_step acc l with
    | Ok acc' => listing_loop acc' ls'
    | Throw e => (acc, Some e)
    end
  end.

(** [showListingsOnMap] with the map present, as a transformer of the
    listing markers on the map: an empty list returns before
    [clearListingMarkers]; otherwise the old markers are cleared and the
    loop draws the new ones (the camera fit is left out). *)
Definition showListingsOnMap (onMap : list lmarker) (listings : list listing)
    : list lmarker * option jserror :=
  match listings with
  | [] => (onMap, None)
  | _ => listing_loop [] listings
  end.

(** The filter of loadAffordableListingsOnMap:
    [listing.price ?? listing.resale_price ?? listing.estimated_price]. *)
Definition nullish_or (a b : fval) : fval :=
  match a with FUndef | FNull => b | _ => a end.

Definition affordable_price (l : listing) : jsnum :=
  match nullish_or (nullish_or (price l) (resale_price l)) (estimated_price l) with
  | FNum x => x
  | FStr s => if String.eqb s "" then JNaN else parseFloat s
  | FUndef | FNull => JNaN
  end.

(** [x <= y] on JavaScript numbers. *)
Definition js_le (x y : jsnum) : bool :=
  match x, y with
  | JNaN, _ => false
  | _, JNaN => false
  | JInf true, _ => true
  | _, JInf false => true
  | JInf false, _ => false
  | JNum _, JInf true => false
  | JNum a, JNum b => Qle_bool a b
  end.

Definition affordable_keep (maxPropertyValue : jsnum) (l : listing) : bool :=
  let p := affordable_price l in
  truthy p && negb (is_nan p) && js_le p maxPropertyValue.

(** [loadAffordableListingsOnMap] with the map present, as a transformer
    of the listing markers: [results] is [res.results] of the search
    response ([None] when [!res || !res.ok] or it is not an array). Errors
    of showListingsOnMap are caught and logged. *)
Definition loadAffordableListingsOnMap (onMap : list lmarker) (maxPropertyValue : jsnum)
    (results : option (list listing)) : list lmarker :=
  if negb (truthy maxPropertyValue) || is_nan maxPropertyValue then onMap else
  match results with
  | None => onMap
  | Some allListings =>
    fst (showListingsOnMap onMap (filter (affordable_keep maxPropertyValue) allListings))
  end.

End Listings.

(** ** highlightComparedTownsOnMap *)

Module Compare.
Import Form.

(** The JSON values met in [geometry.coordinates] and in the town
    centres: [null] or [undefined] ([NNull]), a number or a string, or an
    array. *)
Inductive leaf := LNum (x : jsnum) | LStr (s : string).
#[warnings="-register-all"]
Inductive narr := NNull | NLeaf (v : leaf) | NArr (xs : list narr).

Definition narr_truthy (v : narr) : bool :=
  match v with
  | NNull => false
  | NLeaf (LNum x) => truthy x
  | NLeaf (LStr s) => negb (String.eqb s "")
  | NArr _ => true
  end.

(** [typeof raw === "number" ? raw : parseFloat(raw)]. [parseFloat] of an
    array reads [String(array)], the elements joined by commas: only the
    first element can give a number ([String] of [null] is empty, and
    [parseFloat(String(x))] is [x] on a number). *)
Fixpoint narr_number (v : narr) : jsnum :=
  match v with
  | NNull => JNaN
  | NLeaf (LNum x) => x
  | NLeaf (LStr s) => parseFloat s
  | NArr [] => JNaN
  | NArr (y :: _) => narr_number y
  end.

(** [coord[0]] and [coord[1]] after [if (!coord || coord.length < 2)
    return]: a string is indexed by character; on a number [coord.length]
    and [coord[0]] are undefined, which yields [NaN]. *)
Definition coord_raw (coord : narr) : option (jsnum * jsnum) :=
  match coord with
  | NNull => None
  | NLeaf (LNum x) => if truthy x then Some (JNaN, JNaN) else None
  | NLeaf (LStr s) =>
    if (String.length s <? 2)%nat then None
    else Some (parseFloat (substring 0 1 s), parseFloat (substring 1 1 s))
  | NArr (a :: b :: _) => Some (narr_number a, narr_number b)
  | NArr _ => None
  end.

(** The point passed to the bounds when both values are finite. *)
Definition finite_pair (coord : narr) : option (R * R) :=
  match coord_raw coord with
  | Some (JNum lng, JNum lat) => Some (Q2R lng, Q2R lat)
  | _ => None
  end.

(** [bounds = new LngLatBounds(p, p)] the first time, [bounds.extend(p)]
    afterwards. *)
Definition add_point (bnd : option bounds) (p : R * R) : jsresult (option bounds) :=
  match bnd with
  | None => b <- LngLatBounds_new p p ;; Ok (Some b)
  | Some b => b' <- extend b p ;; Ok (Some b')
  end.

Definition extendCoord (bnd : option bounds) (coord : narr) : jsresult (option bounds) :=
  match finite_pair coord with
  | Some p => add_point bnd p
  | None => Ok bnd
  end.

Fixpoint foldM {A B} (f : A -> B -> jsresult A) (a : A) (l : list B) : jsresult A :=
  match l with
  | [] => Ok a
  | x :: l' => a' <- f a x ;; foldM f a' l'
  end.

(** [(v || []).forEach]: an array is iterated, a falsy value is treated
    as empty, and any other value has no [forEach]. *)
Definition array_or_empty (v : narr) : jsresult (list narr) :=
  match v with
  | NArr xs => Ok xs
  | _ => if narr_truthy v then Throw TypeError else Ok []
  end.

Definition extend_ring (bnd : option bounds) (ring : narr) : jsresult (option bounds) :=
  cs <- array_or_empty ring ;; foldM extendCoord bnd cs.

Definition extend_poly (bnd : option bounds) (poly : narr) : jsresult (option bounds) :=
  rings <- array_or_empty poly ;; foldM extend_ring bnd rings.

Record geom := mkGeom { g_type : option string; g_coordinates : narr }.

Definition extendBoundsFromGeometry (bnd : option bounds) (g : geom) : jsresult (option bounds) :=
  match g_type g with
  | None => Ok bnd
  | Some t =>
    if String.eqb t "" || negb (narr_truthy (g_coordinates g)) then Ok bnd
    else if String.eqb t "Polygon" then
      rings <- array_or_empty (g_coordinates g) ;; foldM extend_ring bnd rings
    else if String.eqb t "MultiPolygon" then
      polys <- array_or_empty (g_coordinates g) ;; foldM extend_poly bnd polys
    else Ok bnd
  end.

(** A town's [boundary] or [geometry] object: its [type], [coordinates]
    and [features] ([None] when not an array); a feature is [None] when
    null and [Some None] when its [geometry] is missing. *)
Record gsource := mkSource {
  gs_type : option string; gs_coordinates : narr;
  gs_features : option (list (option (option geom))) }.

(** An element of [comparison] ([town.town] only names the features and
    the popup and is left out). *)
Record town := mkTown {
  boundary : option gsource; tgeometry : option gsource;
  center_lat : narr; center_lng : narr }.

(** The state threaded through [comparison.forEach]: polygon features
    pushed, [bounds], centre markers added. *)
Record hl_state := mkHl { n_features : nat; hl_bounds : option bounds; n_markers : nat }.

Definition geomSource (t : town) : option gsource :=
  match boundary t with Some g => Some g | None => tgeometry t end.

Definition is_type (o : option string) (s : string) : bool :=
  match o with Some t => String.eqb t s | None => false end.

Definition add_feature (st : hl_state) (g : geom) : jsresult hl_state :=
  b <- extendBoundsFromGeometry (hl_bounds st) g ;;
  Ok (mkHl (S (n_features st)) b (n_markers st)).

Definition fc_feature (st : hl_state) (f : option (option geom)) : jsresult hl_state :=
  match f with
  | Some (Some g) => add_feature st g
  | _ => Ok st
  end.

(** Case A: [geomSource.type === "FeatureCollection" &&
    Array.isArray(geomSource.features)]; case B: a Polygon or
    MultiPolygon geometry. *)
Definition fc_features (gs : gsource) : option (list (option (option geom))) :=
  if is_type (gs_type gs) "FeatureCollection" then gs_features gs else None.

Definition town_geometry (st : hl_state) (gs : gsource) : jsresult hl_state :=
  match fc_features gs with
  | Some feats => foldM fc_feature st feats
  | None =>
    if is_type (gs_type gs) "Polygon" || is_type (gs_type gs) "MultiPolygon"
    then add_feature st (mkGeom (gs_type gs) (gs_coordinates gs))
    else Ok st
  end.

(** The centre marker ([Marker.setLngLat] converts the point), and the
    centre in the bounds only for a town without a geometry source. *)
Definition town_centre (st : hl_state) (t : town) : jsresult hl_state :=
  match narr_number (center_lat t), narr_number (center_lng t) with
  | JNum lat, JNum lng =>
    let p := (Q2R lng, Q2R lat) in
    _ <- LngLat_convert p ;;
    match geomSource t with
    | Some _ => Ok (mkHl (n_features st) (hl_bounds st) (S (n_markers st)))
    | None => b <- add_point (hl_bounds st) p ;; Ok (mkHl (n_features st) b (S (n_markers st)))
    end
  | _, _ => Ok st
  end.

Definition town_step (st : hl_state) (t : option town) : jsresult hl_state :=
  match t with
  | None => Ok st
  | Some t =>
    st1 <- match geomSource t with Some gs => town_geometry st gs | None => Ok st end ;;
    town_centre st1 t
  end.

(** [None]: the early return ([comparison] not an array, or empty);
    otherwise the final state: layers are added when [n_features > 0]
    and [fitBounds] is called when [hl_bounds] is set. *)
Definition highlightComparedTownsOnMap (comparison : option (list (option town)))
    : jsresult (option hl_state) :=
  match comparison with
  | None | Some [] => Ok None
  | Some ts => st <- foldM town_step (mkHl 0 None 0) ts ;; Ok (Some st)
  end.

End Compare.

(** ** The calculate button of setupAffordabilityPanel and the map *)

Module AffordClick.
Import Form Listings.
Local Open Scope Q_scope.

(** [JSON.stringify] of a number field: equal numbers give equal text,
    and [NaN] and the infinities are all written [null]. *)
Definition json_num_eqb (x y : jsnum) : bool :=
  match x, y with
  | JNum a, JNum b => Qeq_bool a b
  | JNum _, _ | _, JNum _ => false
  | _, _ => true
  end.

(** [JSON.stringify(payload) !== lastAffordSignature] compares the five
    fields in their insertion order. *)
Definition signature_eqb (p q : payload) : bool :=
  json_num_eqb (Form.income p) (Form.income q) &&
  json_num_eqb (Form.expenses p) (Form.expenses q) &&
  json_num_eqb (Form.interest p) (Form.interest q) &&
  json_num_eqb (Form.tenure_years p) (Form.tenure_years q) &&
  json_num_eqb (Form.down_payment_pct p) (Form.down_payment_pct q).

(** [lastAffordSignature] and the listing markers on the map. *)
Record ui_state := mkUi { lastAffordSignature : option payload; listingMarkers : list lmarker }.

(** The answer of [/api/affordability]: [AFail] when [postJSON] throws
    or [!res.ok]; otherwise its [max_property_value] field. *)
Inductive afford_response := AFail | AOk (max_property_value : fval).

(** [typeof v === "number" ? v : (v ? parseFloat(v) : NaN)]. *)
Definition max_value (v : fval) : jsnum :=
  match v with
  | FNum x => x
  | FStr s => if String.eqb s "" then JNaN else parseFloat s
  | FUndef | FNull => JNaN
  end.

(** [maxValue > 0]. *)
Definition js_gt0 (x : jsnum) : bool :=
  match x with JNum q => negb (Qle_bool q 0) | JInf neg => negb neg | JNaN => false end.

(** One click on the button: the form's payload, the calculation answer
    and the listing search answer used by loadAffordableListingsOnMap. *)
Definition afford_click (ui : ui_state) (fs : form_state) (resp : afford_response)
    (search : option (list listing)) : ui_state :=
  let payload := build_payload fs in
  let hasChanged :=
    match lastAffordSignature ui with
    | Some s => negb (signature_eqb payload s)
    | None => true
    end in
  let ui1 := if hasChanged then mkUi (Some payload) [] else ui in
  match resp with
  | AFail => ui1
  | AOk mpv =>
    if hasChanged then
      let maxValue := max_value mpv in
      if negb (is_nan maxValue) && js_gt0 maxValue then
        mkUi (lastAffordSignature ui1)
             (loadAffordableListingsOnMap (listingMarkers ui1) maxValue search)
      else ui1
    else ui1
  end.

End AffordClick.

(** ** renderTable *)

Module Table.

(** A cell value of a result row. *)
Inductive jv := VNum (x : Form.jsnum) | VStr (s : string) | VNull | VUndef | VBool (b : bool).

(** A row object: its keys in [Object.keys] order with their values. *)
Definition row := list (string * jv).

Fixpoint lookup (c : string) (r : row) : jv :=
  match r with
  | [] => VUndef
  | (k, v) :: r' => if String.eqb k c then v else lookup c r'
  end.

(** [c.replace(/_/g, ' ')]. *)
Fixpoint replace_underscores (s : string) : string :=
  match s with
  | EmptyString => EmptyString
  | String ch s' =>
    String (if Ascii.eqb ch "_"%char then " "%char else ch) (replace_underscores s')
  end.

Definition header (c : string) : string := toUpperCase (replace_underscores c).

Definition includes (s sub : string) : bool :=
  match String.index 0 sub s with Some _ => true | None => false end.

(** A rendered cell: a number formatted by [toLocaleString], with a [$]
    prefix or not, or any other value printed as is. *)
Inductive cell := CellMoney (x : Form.jsnum) | CellNum (x : Form.jsnum) | CellRaw (v : jv).

Definition render_cell (c : string) (val : jv) : cell :=
  match val with
  | VNum x => if includes c "price" || includes c "psm" then CellMoney x else CellNum x
  | v => CellRaw v
  end.

Inductive table_out := NoResults | Rendered (headers : list string) (cells : list (list cell)).

(** [renderTable(el, rows)] with [el] present: [None] is a missing
    [rows]; the columns are the keys of the first row. *)
Definition renderTable (rows : option (list row)) : table_out :=
  match rows with
  | None | Some [] => NoResults
  | Some ((r0 :: _) as rs) =>
    let cols := map fst r0 in
    Rendered (map header cols) (map (fun r => map (fun c => render_cell c (lookup c r)) cols) rs)
  end.

End Table.

(** * Properties *)

(** ** distanceInMeters *)

Lemma toRad_swap (x y : R) : toRad (x - y) / 2 = - (toRad (y - x) / 2).
Proof. unfold toRad; field. Qed.

Lemma haversine_a_swap (lat1 lng1 lat2 lng2 : R) :
  sin (toRad (lat2 - lat1) / 2) * sin (toRad (lat2 - lat1) / 2) +
  cos (toRad lat1) * cos (toRad lat2) *
  sin (toRad (lng2 - lng1) / 2) * sin (toRad (lng2 - lng1) / 2) =
  sin (toRad (lat1 - lat2) / 2) * sin (toRad (lat1 - lat2) / 2) +
  cos (toRad lat2) * cos (toRad lat1) *
  sin (toRad (lng1 - lng2) / 2) * sin (toRad (lng1 - lng2) / 2).
Proof. rewrite (toRad_swap lat2 lat1), (toRad_swap lng2 lng1), !sin_neg; ring. Qed.

Lemma distance_swap (lat1 lng1 lat2 lng2 : R) :
  distanceInMeters lat1 lng1 lat2 lng2 = distanceInMeters lat2 lng2 lat1 lng1.
Proof. unfold distanceInMeters; cbv zeta; rewrite haversine_a_swap; reflexivity. Qed.

Lemma atan2_0_1 : atan2 0 1 = 0.
Proof.
  unfold atan2; destruct (Rlt_dec 0 1) as [_|H]; [|lra].
  unfold Rdiv; rewrite Rmult_0_l; apply atan_0.
Qed.

Lemma distance_self (lat lng : R) : distanceInMeters lat lng lat lng = 0.
Proof.
  unfold distanceInMeters.
  rewrite !Rminus_diag; unfold toRad.
  replace (0 * PI / 180 / 2) with 0 by field.
  rewrite sin_0, !Rmult_0_r, Rplus_0_r, Rminus_0_r, sqrt_0, sqrt_1, atan2_0_1.
  ring.
Qed.

(** C7: the haversine distance is symmetric and zero on the diagonal. *)
Theorem distance_symmetric_and_zero :
  (forall lat1 lng1 lat2 lng2 : R,
      distanceInMeters lat1 lng1 lat2 lng2 = distanceInMeters lat2 lng2 lat1 lng1) /\
  (forall lat lng : R, distanceInMeters lat lng lat lng = 0).
Proof. split; [apply distance_swap | apply distance_self]. Qed.

(** ** getNearbyAmenities *)

(** A feature the filter can measure: non-null, of type Point, with an
    array of at least two coordinates [fLng, fLat, ...]. *)
Definition well_formed_point (f : jsfeature) (fLng fLat : R) : Prop :=
  exists ft g rest, f = Some ft /\ fgeometry ft = Some g /\
    gtype g = "Point"%string /\ coordinates g = CArr (fLng :: fLat :: rest).

Lemma nearby_keep_true (lat lng r : R) (f : jsfeature) :
  nearby_keep lat lng r f = true <->
  exists fLng fLat, well_formed_point f fLng fLat /\
    distanceInMeters lat lng fLat fLng <= r.
Proof.
  unfold nearby_keep, well_formed_point; split.
  - destruct f as [ft|]; [|discriminate].
    destruct (fgeometry ft) as [g|] eqn:Hg; [|discriminate].
    destruct (String.eqb_spec (gtype g) "Point") as [Ht|Ht]; simpl; [|discriminate].
    destruct (coordinates g) as [|[|x [|y rest]]|] eqn:Hc; try discriminate.
    unfold Rleb; destruct (Rle_dec _ _) as [Hle|]; [|discriminate]; intros _.
    exists x, y; split; [exists ft, g, rest; repeat split; auto | exact Hle].
  - intros (x & y & (ft & g & rest & -> & Hg & Ht & Hc) & Hle).
    rewrite Hg, Ht, Hc; simpl.
    unfold Rleb; destruct (Rle_dec _ _); [reflexivity | contradiction].
Qed.

Lemma nearby_in (F : list jsfeature) (lat lng r : R) (f : jsfeature) :
  In f (getNearbyAmenities (Some (Some F)) lat lng r) <->
  In f F /\ exists fLng fLat, well_formed_point f fLng fLat /\
    distanceInMeters lat lng fLat fLng <= r.
Proof. simpl; rewrite filter_In, nearby_keep_true; tauto. Qed.

(** C1 (as amended): the result of nearby is a subsequence of the feature
    list, and a feature is in it exactly when it is non-null, of type
    Point with at least two coordinates, and its haversine distance to
    the center is at most the radius (a tie is included). *)
Theorem nearby_exact_filter (F : list jsfeature) (lat lng r : R) :
  (exists keep, getNearbyAmenities (Some (Some F)) lat lng r = filter keep F) /\
  (forall f, In f (getNearbyAmenities (Some (Some F)) lat lng r) <->
     In f F /\ exists fLng fLat, well_formed_point f fLng fLat /\
       distanceInMeters lat lng fLat fLng <= r).
Proof. split; [eexists; reflexivity | intro f; apply nearby_in]. Qed.

(** C1 counterexample: a LineString feature lying on the center (distance
    0, within 600 m) is not returned. *)
Lemma nearby_drops_non_point :
  let f := Some (mkFeature (Some (mkGeometry "LineString" (CArr [103.8198; 1.3521]))) None) in
  In f [f] /\ distanceInMeters 1.3521 103.8198 1.3521 103.8198 <= 600 /\
  ~ In f (getNearbyAmenities (Some (Some [f])) 1.3521 103.8198 600).
Proof.
  simpl; split; [left; reflexivity|split].
  - rewrite distance_self; lra.
  - tauto.
Qed.

(** ** The marker-placement loop *)

Definition valid_lat (p : R * R) : Prop := -90 <= snd p <= 90.

Lemma LngLat_convert_ok (p : R * R) : valid_lat p -> LngLat_convert p = Ok p.
Proof.
  intros [H1 H2]; unfold LngLat_convert.
  destruct (Rle_dec (-90) (snd p)); [|lra]; destruct (Rle_dec (snd p) 90); [reflexivity|lra].
Qed.


Definition counts_val (k : coord_key) (m : counts) : nat :=
  match counts_get k m with Some c => c | None => 0%nat end.

Lemma counts_val_set (k k' : coord_key) (v : nat) (m : counts) :
  counts_val k (counts_set k' v m) = if key_eq_dec k k' then v else counts_val k m.
Proof. unfold counts_val, counts_set; simpl; destruct (key_eq_dec k k'); reflexivity. Qed.

Lemma count_key_snoc (k : coord_key) (seen : list (R * R)) (p : R * R) :
  count_key k (seen ++ [p]) = (count_key k seen + if key_eqb (rkey p) k then 1 else 0)%nat.
Proof.
  unfold count_key; rewrite filter_app, length_app; simpl.
  destruct (key_eqb (rkey p) k); simpl; lia.
Qed.

Lemma spec_place_jitter (x y : R) (k : nat) :
  spec_place (x, y) k = if (1 <? k)%nat then jitter x y k else (x, y).
Proof.
  destruct k as [|[|k]]; [reflexivity|reflexivity|].
  simpl Nat.ltb; cbv iota; unfold spec_place, jitter; cbv zeta.
  replace (60 * PI / 180) with (PI / 3) by field; reflexivity.
Qed.

Definition next_seen (seen : list (R * R)) (f : jsfeature) : list (R * R) :=
  match feature_point f with Some p => seen ++ [p] | None => seen end.

Lemma LngLat_convert_bad (p : R * R) : ~ valid_lat p -> LngLat_convert p = Throw InvalidLngLat.
Proof.
  intro H; unfold LngLat_convert, valid_lat in *.
  destruct (Rle_dec (-90) (snd p)); [|reflexivity].
  destruct (Rle_dec (snd p) 90); [|reflexivity]; exfalso; auto.
Qed.

Lemma valid_lat_dec (p : R * R) : {valid_lat p} + {~ valid_lat p}.
Proof.
  unfold valid_lat; destruct (Rle_dec (-90) (snd p)) as [H1|H1];
    [destruct (Rle_dec (snd p) 90) as [H2|H2]; [left; auto|]|];
    right; intros [? ?]; contradiction.
Qed.

(** The position the loop hands to [setLngLat] for a feature, given the
    points already drawn. *)
Definition shown_at (seen : list (R * R)) (p : R * R) : R * R :=
  spec_place p (S (count_key (rkey p) seen)).

Lemma layout_step_safe (st : layout_state) (seen : list (R * R)) (f : jsfeature) :
  layout_safe f = true ->
  (forall k, counts_val k (coordCounts st) = count_key k seen) ->
  (forall p, feature_point f = Some p -> valid_lat (shown_at seen p)) ->
  exists st', layout_step st f = Ok st' /\
    drawable st' = drawable st ++ (if dropped f then [] else [f]) /\
    map marker_pos (amenityMarkers st') =
      map marker_pos (amenityMarkers st) ++
      match feature_point f with
      | Some p => [shown_at seen p]
      | None => []
      end /\
    (forall k, counts_val k (coordCounts st') = count_key k (next_seen seen f)).
Proof.
  intros Hsafe Hinv Hpos.
  destruct f as [ft|]; [|discriminate].
  unfold layout_safe, dropped, next_seen, feature_point, layout_step, layout_guard, shown_at in *.
  destruct (fgeometry ft) as [g|] eqn:Hg;
    [|exists st; rewrite !app_nil_r; auto].
  destruct (String.eqb (gtype g) "Point") eqn:Ht; simpl in *;
    [|exists st; rewrite !app_nil_r; auto].
  destruct (coordinates g) as [|l|] eqn:Hc; simpl in *;
    try (exists st; rewrite !app_nil_r; auto; fail).
  destruct l as [|x [|y rest]]; try discriminate.
  specialize (Hpos (x, y) eq_refl).
  assert (Hv : valid_lat
    (if (1 <? S (counts_val (toFixed6 x, toFixed6 y) (coordCounts st)))%nat
     then jitter x y (S (counts_val (toFixed6 x, toFixed6 y) (coordCounts st))) else (x, y))).
  { rewrite Hinv; rewrite spec_place_jitter in Hpos; exact Hpos. }
  unfold counts_val in Hv.
  rewrite spec_place_jitter.
  cbv zeta; rewrite (LngLat_convert_ok _ Hv); cbn [bind].
  eexists; split; [reflexivity|]; cbn [drawable amenityMarkers coordCounts].
  split; [reflexivity|split].
  - rewrite map_app; cbn [map]; f_equal; f_equal.
    clear Hv Hpos.
    unfold counts_val in Hinv; rewrite Hinv; unfold rkey, marker_pos; cbn [fst snd m_lng m_lat].
    destruct (1 <? _)%nat; [destruct (jitter _ _ _)|]; reflexivity.
  - intro k; rewrite counts_val_set, count_key_snoc, <- (Hinv k).
    unfold key_eqb, rkey; cbn [fst snd].
    set (kk := (toFixed6 x, toFixed6 y)).
    destruct (key_eq_dec k kk) as [->|Hne].
    + destruct (key_eq_dec kk kk) as [_|C]; [|congruence].
      unfold counts_val; lia.
    + destruct (key_eq_dec kk k) as [C|_]; [congruence|].
      lia.
Qed.

(** [setLngLat] throws when the displayed latitude leaves [-90, 90]. *)
Lemma layout_step_bad (st : layout_state) (seen : list (R * R)) (f : jsfeature) (p : R * R) :
  layout_safe f = true ->
  (forall k, counts_val k (coordCounts st) = count_key k seen) ->
  feature_point f = Some p -> ~ valid_lat (shown_at seen p) ->
  layout_step st f = Throw InvalidLngLat.
Proof.
  intros Hsafe Hinv Hp Hbad.
  destruct f as [ft|]; [|discriminate].
  unfold layout_safe, feature_point, layout_step, layout_guard, shown_at in *.
  destruct (fgeometry ft) as [g|] eqn:Hg; [|discriminate].
  destruct (String.eqb (gtype g) "Point") eqn:Ht; simpl in *; [|discriminate].
  destruct (coordinates g) as [|l|] eqn:Hc; simpl in *; try discriminate.
  destruct l as [|x [|y rest]]; try discriminate.
  injection Hp as <-.
  assert (Hv : ~ valid_lat
    (if (1 <? S (counts_val (toFixed6 x, toFixed6 y) (coordCounts st)))%nat
     then jitter x y (S (counts_val (toFixed6 x, toFixed6 y) (coordCounts st))) else (x, y))).
  { rewrite Hinv; rewrite spec_place_jitter in Hbad; exact Hbad. }
  unfold counts_val in Hv.
  cbv zeta; rewrite (LngLat_convert_bad _ Hv); reflexivity.
Qed.

Lemma spec_positions_from_cons (seen : list (R * R)) (f : jsfeature) (L : list jsfeature) :
  spec_positions_from seen (kept_points (f :: L)) =
  match feature_point f with
  | Some p => shown_at seen p :: spec_positions_from (next_seen seen f) (kept_points L)
  | None => spec_positions_from (next_seen seen f) (kept_points L)
  end.
Proof. unfold next_seen; simpl; destruct (feature_point f); reflexivity. Qed.

Lemma layout_loop_safe (L : list jsfeature) :
  forall st seen,
  Forall (fun f => layout_safe f = true) L ->
  (forall k, counts_val k (coordCounts st) = count_key k seen) ->
  Forall valid_lat (spec_positions_from seen (kept_points L)) ->
  exists st', layout_loop st L = Ok st' /\
    drawable st' = drawable st ++ filter (fun f => negb (dropped f)) L /\
    map marker_pos (amenityMarkers st') =
      map marker_pos (amenityMarkers st) ++ spec_positions_from seen (kept_points L).
Proof.
  induction L as [|f L IH]; intros st seen HL Hinv Hv.
  - exists st; simpl; rewrite !app_nil_r; auto.
  - inversion HL as [|? ? Hf HL']; subst.
    rewrite spec_positions_from_cons in *.
    assert (Hpos : forall p, feature_point f = Some p -> valid_lat (shown_at seen p)).
    { intros p Hp; rewrite Hp in Hv; inversion Hv; assumption. }
    assert (Hv' : Forall valid_lat (spec_positions_from (next_seen seen f) (kept_points L))).
    { destruct (feature_point f); [inversion Hv|]; assumption. }
    destruct (layout_step_safe st seen f Hf Hinv Hpos) as (st1 & Hstep & Hd & Hm & Hc).
    destruct (IH st1 (next_seen seen f) HL' Hc Hv') as (st2 & Hloop & Hd2 & Hm2).
    exists st2; simpl; rewrite Hstep; simpl; split; [exact Hloop|split].
    + rewrite Hd2, Hd, <- app_assoc.
      destruct (dropped f); reflexivity.
    + rewrite Hm2, Hm, <- app_assoc; f_equal.
      destruct (feature_point f) as [p|]; reflexivity.
Qed.

Lemma layout_loop_bad (L : list jsfeature) :
  forall st seen,
  Forall (fun f => layout_safe f = true) L ->
  (forall k, counts_val k (coordCounts st) = count_key k seen) ->
  ~ Forall valid_lat (spec_positions_from seen (kept_points L)) ->
  layout_loop st L = Throw InvalidLngLat.
Proof.
  induction L as [|f L IH]; intros st seen HL Hinv Hv.
  - exfalso; apply Hv; constructor.
  - inversion HL as [|? ? Hf HL']; subst.
    rewrite spec_positions_from_cons in Hv.
    destruct (feature_point f) as [p|] eqn:Hp.
    + destruct (valid_lat_dec (shown_at seen p)) as [Hok|Hbad].
      * assert (Hpos : forall q, feature_point f = Some q -> valid_lat (shown_at seen q))
          by (intros q Hq; rewrite Hp in Hq; injection Hq as <-; exact Hok).
        destruct (layout_step_safe st seen f Hf Hinv Hpos) as (st1 & Hstep & _ & _ & Hc).
        simpl; rewrite Hstep; simpl.
        apply (IH st1 (next_seen seen f) HL' Hc).
        intro H; apply Hv; constructor; assumption.
      * simpl; rewrite (layout_step_bad st seen f p Hf Hinv Hp Hbad); reflexivity.
    + assert (Hpos : forall q, feature_point f = Some q -> valid_lat (shown_at seen q))
        by (intros q Hq; rewrite Hp in Hq; discriminate).
      destruct (layout_step_safe st seen f Hf Hinv Hpos) as (st1 & Hstep & _ & _ & Hc).
      simpl; rewrite Hstep; simpl.
      exact (IH st1 (next_seen seen f) HL' Hc Hv).
Qed.

Lemma layout_spec (L : list jsfeature) :
  Forall (fun f => layout_safe f = true) L ->
  Forall valid_lat (spec_positions (kept_points L)) ->
  exists dr ms, layoutForDisplay L = Ok (dr, ms) /\
    dr = filter (fun f => negb (dropped f)) L /\
    map marker_pos ms = spec_positions (kept_points L).
Proof.
  intros HL Hv.
  destruct (layout_loop_safe L (mkLayoutState [] [] []) [] HL) as (st & Hl & Hd & Hm);
    [reflexivity|exact Hv|].
  exists (drawable st), (amenityMarkers st).
  unfold layoutForDisplay; rewrite Hl; simpl; split; [reflexivity|split; assumption].
Qed.

Lemma layout_spec_bad (L : list jsfeature) :
  Forall (fun f => layout_safe f = true) L ->
  ~ Forall valid_lat (spec_positions (kept_points L)) ->
  layoutForDisplay L = Throw InvalidLngLat.
Proof.
  intros HL Hv; unfold layoutForDisplay.
  rewrite (layout_loop_bad L (mkLayoutState [] [] []) [] HL); [reflexivity|reflexivity|exact Hv].
Qed.


Lemma kept_points_length (L : list jsfeature) :
  Forall (fun f => layout_safe f = true) L ->
  List.length (kept_points L) = List.length (filter (fun f => negb (dropped f)) L).
Proof.
  induction L as [|f L IH]; intro HL; [reflexivity|].
  inversion HL as [|? ? Hf HL']; subst; simpl.
  destruct f as [ft|]; [|discriminate].
  unfold layout_safe, feature_point, dropped in *.
  destruct (layout_guard ft); simpl; [|now apply IH].
  destruct (fgeometry ft) as [g|]; [|discriminate].
  destruct (coordinates g) as [|[|x [|y rest]]|]; try discriminate.
  simpl; now rewrite IH.
Qed.

Lemma filter_length_split {A} (p : A -> bool) (l : list A) :
  List.length (filter (fun x => negb (p x)) l) = (List.length l - List.length (filter p l))%nat.
Proof.
  induction l as [|x l IH]; [reflexivity|]; cbn [filter Datatypes.length].
  assert (List.length (filter p l) <= List.length l)%nat by apply filter_length_le.
  destruct (p x); cbn [negb filter Datatypes.length]; lia.
Qed.

(** ** Sixth turns of the circle *)






(** ** Displacement of the k-th duplicate *)








(** ** Features at one exact coordinate *)

Definition school_at (lng lat : R) (nm : string) : jsfeature :=
  Some (mkFeature (Some (mkGeometry "Point" (CArr [lng; lat])))
                  (Some (mkProps (Some "SCHOOL"%string) None (Some nm) None))).

Lemma key_eqb_refl (k : coord_key) : key_eqb k k = true.
Proof. unfold key_eqb; destruct (key_eq_dec k k); congruence. Qed.

Lemma spec_positions_repeat (p : R * R) (n : nat) :
  forall seen, spec_positions_from seen (repeat p n) =
    map (fun i => spec_place p (S (count_key (rkey p) seen + i))) (seq 0 n).
Proof.
  induction n as [|n IH]; intro seen; [reflexivity|].
  cbn [repeat spec_positions_from seq map].
  rewrite IH, Nat.add_0_r, <- seq_shift, map_map.
  f_equal; apply map_ext; intro i.
  rewrite count_key_snoc, key_eqb_refl; f_equal; f_equal; lia.
Qed.

Lemma kept_points_at (p : R * R) (fs : list jsfeature) :
  Forall (fun f => layout_safe f = true /\ feature_point f = Some p) fs ->
  kept_points fs = repeat p (List.length fs).
Proof.
  induction fs as [|f fs IH]; intro H; [reflexivity|].
  inversion H as [|? ? [_ Hp] H']; subst; simpl; rewrite Hp, IH; auto.
Qed.

(** A displaced latitude moves by at most 18 / 111320 degree. *)
Lemma spec_place_valid (lng lat : R) (k : nat) :
  -90 + 18 / 111320 <= lat <= 90 - 18 / 111320 -> valid_lat (spec_place (lng, lat) k).
Proof.
  intro Hlat; unfold valid_lat.
  destruct k as [|[|k]]; cbn [spec_place snd]; [lra|lra|].
  pose proof (SIN_bound (INR (S (S k) - 1) * (60 * PI / 180))) as Hs.
  cbv zeta; cbn [snd]; lra.
Qed.


(** Two amenities at latitude 89.9999: the second is displaced 18 m at
    60 degrees, past the pole, and [setLngLat] throws. *)
Lemma pole_duplicate_throws :
  layoutForDisplay [school_at 103.82 89.9999 "A"; school_at 103.82 89.9999 "B"] =
  Throw InvalidLngLat.
Proof.
  apply layout_spec_bad; [repeat constructor|].
  rewrite (kept_points_at (103.82, 89.9999)) by repeat constructor.
  unfold spec_positions; rewrite spec_positions_repeat.
  cbn [seq map List.length repeat]; unfold count_key; cbn [filter List.length Nat.add].
  intro H; inversion H as [|? ? _ H']; subst; inversion H' as [|? ? Hv _]; subst.
  unfold valid_lat in Hv; cbn [snd] in Hv.
  replace (1 * (60 * PI / 180)) with (PI / 3) in Hv by field.
  rewrite sin_PI3 in Hv.
  pose proof (sqrt_sqrt 3 ltac:(lra)) as H3; pose proof (sqrt_pos 3).
  assert (1.24 < sqrt 3) by nra.
  lra.
Qed.


(** ** Claims on the marker layout *)

Lemma layout_step_ok_safe (st st' : layout_state) (f : jsfeature) :
  layout_step st f = Ok st' -> layout_safe f = true.
Proof.
  destruct f as [ft|]; [|discriminate].
  unfold layout_step, layout_safe, layout_guard.
  destruct (fgeometry ft) as [g|]; [|reflexivity].
  destruct (String.eqb (gtype g) "Point"); simpl; [|reflexivity].
  destruct (coordinates g) as [|[|x [|y rest]]|]; simpl; try reflexivity; discriminate.
Qed.

Lemma layout_loop_ok_safe (L : list jsfeature) :
  forall st st', layout_loop st L = Ok st' -> Forall (fun f => layout_safe f = true) L.
Proof.
  induction L as [|f L IH]; intros st st' H; [constructor|].
  simpl in H; destruct (layout_step st f) as [st1|e] eqn:E; [|discriminate].
  constructor; [exact (layout_step_ok_safe _ _ _ E)|exact (IH _ _ H)].
Qed.

(** C2: whenever the loop produces markers, they are placed as the spec
    says: grouped by the 6-decimal [toFixed] text of longitude and
    latitude, the first amenity of a group keeps its point and the k-th
    one (k >= 2) is moved 18 m at angle (k - 1) * 60 degrees, with 111320 m
    per degree of latitude and 111320 * cos(latitude) m per degree of
    longitude. *)
Theorem layout_places_duplicates (L dr : list jsfeature) (ms : list marker) :
  layoutForDisplay L = Ok (dr, ms) ->
  map marker_pos ms = spec_positions (kept_points L).
Proof.
  intro H.
  assert (HL : Forall (fun f => layout_safe f = true) L).
  { unfold layoutForDisplay in H.
    destruct (layout_loop (mkLayoutState [] [] []) L) as [st|e] eqn:E; [|discriminate].
    exact (layout_loop_ok_safe L _ _ E). }
  assert (Hv : Forall valid_lat (spec_positions (kept_points L))).
  { destruct (Forall_dec valid_lat valid_lat_dec (spec_positions (kept_points L))) as [Hv|Hv];
      [exact Hv|].
    rewrite (layout_spec_bad L HL Hv) in H; discriminate. }
  destruct (layout_spec L HL Hv) as (dr' & ms' & Hl & _ & Hm).
  rewrite H in Hl; injection Hl as _ ->; exact Hm.
Qed.

(** Three schools at one point: the markers are the point itself and the
    point moved 18 m at 60 and at 120 degrees. *)
Lemma layout_places_duplicates_witness :
  exists dr ms,
    layoutForDisplay [school_at 103.82 1.35 "A"; school_at 103.82 1.35 "B";
                      school_at 103.82 1.35 "C"] = Ok (dr, ms) /\
    map marker_pos ms =
      [(103.82, 1.35); spec_place (103.82, 1.35) 2; spec_place (103.82, 1.35) 3].
Proof.
  set (L := [school_at 103.82 1.35 "A"; school_at 103.82 1.35 "B"; school_at 103.82 1.35 "C"]).
  assert (HL : Forall (fun f => layout_safe f = true /\ feature_point f = Some (103.82, 1.35)) L)
    by repeat constructor.
  assert (Hk : kept_points L = repeat (103.82, 1.35) 3) by exact (kept_points_at _ L HL).
  destruct (layout_spec L) as (dr & ms & Hl & _ & _).
  { eapply Forall_impl; [|exact HL]; simpl; tauto. }
  { rewrite Hk; unfold spec_positions; rewrite spec_positions_repeat.
    apply Forall_forall; intros q Hq; apply in_map_iff in Hq as (i & <- & _).
    apply spec_place_valid; lra. }
  exists dr, ms; split; [exact Hl|].
  rewrite (layout_places_duplicates L dr ms Hl), Hk.
  unfold spec_positions; rewrite spec_positions_repeat; reflexivity.
Defined.








(** ** Nearby output feeds the loop *)

Lemma well_formed_point_loop (f : jsfeature) (x y : R) :
  well_formed_point f x y -> layout_safe f = true /\ dropped f = false.
Proof.
  intros (ft & g & rest & -> & Hg & Ht & Hc).
  unfold layout_safe, dropped, layout_guard; rewrite Hg, Ht, Hc; auto.
Qed.

Lemma nearby_loop_ok (cache : amenities_cache) (lat lng r : R) :
  (exists ms, layoutForDisplay (getNearbyAmenities cache lat lng r) =
              Ok (getNearbyAmenities cache lat lng r, ms)) \/
  layoutForDisplay (getNearbyAmenities cache lat lng r) = Throw InvalidLngLat.
Proof.
  set (N := getNearbyAmenities cache lat lng r).
  assert (HN : forall f, In f N -> layout_safe f = true /\ dropped f = false).
  { intros f Hf; unfold N in Hf.
    destruct cache as [[F|]|]; try contradiction.
    apply nearby_in in Hf as (_ & x & y & Hw & _).
    exact (well_formed_point_loop f x y Hw). }
  assert (HS : Forall (fun f => layout_safe f = true) N).
  { apply Forall_forall; intros f Hf; apply HN, Hf. }
  destruct (Forall_dec valid_lat valid_lat_dec (spec_positions (kept_points N))) as [Hv|Hv];
    [left|right; exact (layout_spec_bad N HS Hv)].
  destruct (layout_spec N HS Hv) as (dr & ms & Hl & Hd & _).
  exists ms; rewrite Hl, Hd; do 2 f_equal.
  clear Hl Hd HS Hv; induction N as [|f N IH]; [reflexivity|]; simpl.
  rewrite (proj2 (HN f (or_introl eq_refl))); simpl; f_equal.
  apply IH; intros g Hg; apply HN; right; exact Hg.
Qed.

(** C10: every element returned by nearby is non-null, of type Point,
    with at least two coordinates; an absent cache or one without a
    [features] field gives the empty sequence; and the marker loop run
    on the result drops nothing and throws no TypeError: it either draws
    every returned feature or stops at [setLngLat] on a displaced
    position past a pole. *)
Theorem nearby_output_well_formed (cache : amenities_cache) (lat lng r : R) :
  (forall f, In f (getNearbyAmenities cache lat lng r) ->
     exists fLng fLat, well_formed_point f fLng fLat) /\
  getNearbyAmenities None lat lng r = [] /\
  getNearbyAmenities (Some None) lat lng r = [] /\
  ((exists ms, layoutForDisplay (getNearbyAmenities cache lat lng r) =
               Ok (getNearbyAmenities cache lat lng r, ms)) \/
   layoutForDisplay (getNearbyAmenities cache lat lng r) = Throw InvalidLngLat).
Proof.
  split; [|split; [reflexivity|split; [reflexivity|apply nearby_loop_ok]]].
  intros f Hf; destruct cache as [[F|]|]; try contradiction.
  apply nearby_in in Hf as (_ & x & y & Hw & _); eauto.
Qed.

Lemma nearby_output_well_formed_witness :
  exists fLng fLat, well_formed_point (school_at 103.82 1.35 "A") fLng fLat.
Proof.
  apply (proj1 (nearby_output_well_formed (Some (Some [school_at 103.82 1.35 "A"])) 1.35 103.82 600)).
  rewrite nearby_in; split; [left; reflexivity|].
  exists 103.82, 1.35; split; [exists (match school_at 103.82 1.35 "A" with Some ft => ft | None => mkFeature None None end), (mkGeometry "Point" (CArr [103.82; 1.35])), []; repeat split|].
  rewrite distance_self; lra.
Defined.

(** ** The bounds fold *)

Lemma Rmin_le_l (x y : R) : Rmin x y <= x.
Proof. unfold Rmin; destruct (Rle_dec x y); lra. Qed.
Lemma Rmin_le_r (x y : R) : Rmin x y <= y.
Proof. unfold Rmin; destruct (Rle_dec x y); lra. Qed.
Lemma Rmax_ge_l (x y : R) : x <= Rmax x y.
Proof. unfold Rmax; destruct (Rle_dec x y); lra. Qed.
Lemma Rmax_ge_r (x y : R) : y <= Rmax x y.
Proof. unfold Rmax; destruct (Rle_dec x y); lra. Qed.
Lemma Rmin_same (x : R) : Rmin x x = x.
Proof. unfold Rmin; destruct (Rle_dec x x); lra. Qed.
Lemma Rmax_same (x : R) : Rmax x x = x.
Proof. unfold Rmax; destruct (Rle_dec x x); lra. Qed.

Definition bounds_within (b b' : bounds) : Prop :=
  sw_lng b' <= sw_lng b /\ sw_lat b' <= sw_lat b /\ ne_lng b <= ne_lng b' /\ ne_lat b <= ne_lat b'.

Lemma in_bounds_within (b b' : bounds) (p : R * R) :
  bounds_within b b' -> in_bounds b p -> in_bounds b' p.
Proof. unfold bounds_within, in_bounds; lra. Qed.

Lemma reduce_extend_spec (ps : list (R * R)) :
  forall b, sw_lng b <= ne_lng b -> sw_lat b <= ne_lat b -> Forall valid_lat ps ->
  exists b', reduce_extend b ps = Ok b' /\ bounds_within b b' /\
    sw_lng b' <= ne_lng b' /\ sw_lat b' <= ne_lat b' /\ Forall (in_bounds b') ps.
Proof.
  induction ps as [|p ps IH]; intros b H1 H2 Hv.
  - exists b; simpl; unfold bounds_within; repeat split; lra || constructor.
  - inversion Hv as [|? ? Hp Hv']; subst.
    set (b1 := mkBounds (Rmin (fst p) (sw_lng b)) (Rmin (snd p) (sw_lat b))
                        (Rmax (fst p) (ne_lng b)) (Rmax (snd p) (ne_lat b))).
    assert (Hw1 : bounds_within b b1).
    { unfold bounds_within, b1; simpl.
      repeat split; auto using Rmin_le_r, Rmax_ge_r. }
    assert (Hp1 : in_bounds b1 p).
    { unfold in_bounds, b1; simpl.
      repeat split; auto using Rmin_le_l, Rmax_ge_l. }
    destruct (IH b1) as (b' & Hr & Hw & Hl1 & Hl2 & Hin); [| |exact Hv'|].
    + unfold b1; simpl; pose proof (Rmin_le_l (fst p) (sw_lng b)); pose proof (Rmax_ge_l (fst p) (ne_lng b)); lra.
    + unfold b1; simpl; pose proof (Rmin_le_l (snd p) (sw_lat b)); pose proof (Rmax_ge_l (snd p) (ne_lat b)); lra.
    + exists b'; simpl; unfold extend; rewrite LngLat_convert_ok by exact Hp; simpl.
      fold b1; rewrite Hr; split; [reflexivity|split].
      * unfold bounds_within in *; lra.
      * split; [exact Hl1|split; [exact Hl2|constructor; [|exact Hin]]].
        exact (in_bounds_within b1 b' p Hw Hp1).
Qed.

(** C6: on the empty list the fold yields no bounds and no camera fit is
    made; a single point gives degenerate bounds with min = max = that
    point; on any non-empty list of points (latitudes in [-90, 90], which
    the [LngLat] constructor demands) min <= max on both axes and every
    point lies within the bounds. *)
Theorem bounds_fold_spec :
  boundsOf [] = Ok None /\
  (forall lng lat, -90 <= lat <= 90 ->
     boundsOf [(lng, lat)] = Ok (Some (mkBounds lng lat lng lat))) /\
  (forall ps, ps <> [] -> Forall valid_lat ps ->
     exists b, boundsOf ps = Ok (Some b) /\
       sw_lng b <= ne_lng b /\ sw_lat b <= ne_lat b /\ Forall (in_bounds b) ps).
Proof.
  split; [reflexivity|split].
  - intros lng lat Hlat; unfold boundsOf, LngLatBounds_new, reduce_extend, extend.
    repeat (rewrite LngLat_convert_ok by exact Hlat; simpl).
    rewrite Rmin_same, Rmin_same, Rmax_same, Rmax_same; reflexivity.
  - intros [|p0 ps] Hne Hv; [contradiction|].
    inversion Hv as [|? ? Hp0 _]; subst.
    destruct (reduce_extend_spec (p0 :: ps) (mkBounds (fst p0) (snd p0) (fst p0) (snd p0)))
      as (b & Hr & _ & H1 & H2 & Hin); [simpl; lra|simpl; lra|exact Hv|].
    exists b; unfold boundsOf, LngLatBounds_new.
    rewrite LngLat_convert_ok by exact Hp0; cbn [bind]; rewrite Hr; cbn [bind]; auto.
Qed.

Lemma bounds_fold_spec_witness :
  exists b, boundsOf [(103.82, 1.35); (103.9, 1.3)] = Ok (Some b) /\
    sw_lng b <= ne_lng b /\ sw_lat b <= ne_lat b /\
    Forall (in_bounds b) [(103.82, 1.35); (103.9, 1.3)].
Proof.
  apply (proj2 (proj2 bounds_fold_spec)); [discriminate|].
  repeat constructor; unfold valid_lat; simpl; lra.
Defined.

(** ** getAmenityConfig *)

(** Case-insensitive equality of two strings. *)
Definition ci_eq (s k : string) : bool := String.eqb (toUpperCase s) (toUpperCase k).

(** The five category entries of the table (DEFAULT excluded). *)
Definition category_table : list (string * amenity_config) := firstn 5 AMENITY_ICONS.

Lemma config_of_upper (s k : string) :
  toUpperCase s = k -> k <> EmptyString -> getAmenityConfig (Some s) =
  match lookup_icon k AMENITY_ICONS with Some c => c | None => cfg_DEFAULT end.
Proof.
  intros Hu Hk; unfold getAmenityConfig.
  destruct s as [|c s']; [simpl in Hu; congruence|].
  change (String.eqb (String c s') "") with false; cbv iota; rewrite Hu; reflexivity.
Qed.

(** C9: getAmenityConfig is defined on every string and on null; a string
    equal, ignoring case, to one of the five categories gets that entry;
    any other string, and null, gets the DEFAULT style; the icons and
    the colours of the table are pairwise distinct. *)
Theorem getAmenityConfig_lookup :
  (forall s k cfg, In (k, cfg) category_table -> ci_eq s k = true ->
     getAmenityConfig (Some s) = cfg) /\
  (forall x, (forall k cfg, In (k, cfg) category_table ->
                match x with Some s => ci_eq s k = false | None => True end) ->
     getAmenityConfig x = cfg_DEFAULT) /\
  NoDup (map (fun e => icon (snd e)) AMENITY_ICONS) /\
  NoDup (map (fun e => color (snd e)) AMENITY_ICONS).
Proof.
  split; [|split; [|split]].
  - intros s k cfg Hin Hci; unfold ci_eq in Hci; apply String.eqb_eq in Hci.
    unfold category_table, AMENITY_ICONS in Hin; simpl in Hin;
    destruct Hin as [H|[H|[H|[H|[H|[]]]]]]; inversion H; subst;
      simpl in Hci; rewrite (config_of_upper s _ Hci) by discriminate; reflexivity.
  - intros [s|] H; [|reflexivity].
    pose proof (H _ _ (or_introl eq_refl)) as H1.
    pose proof (H _ _ (or_intror (or_introl eq_refl))) as H2.
    pose proof (H _ _ (or_intror (or_intror (or_introl eq_refl)))) as H3.
    pose proof (H _ _ (or_intror (or_intror (or_intror (or_introl eq_refl))))) as H4.
    pose proof (H _ _ (or_intror (or_intror (or_intror (or_intror (or_introl eq_refl)))))) as H5.
    unfold ci_eq in H1, H2, H3, H4, H5.
    change (toUpperCase "MRT_STATION") with "MRT_STATION"%string in H1.
    change (toUpperCase "SCHOOL") with "SCHOOL"%string in H2.
    change (toUpperCase "CLINIC") with "CLINIC"%string in H3.
    change (toUpperCase "SUPERMARKET") with "SUPERMARKET"%string in H4.
    change (toUpperCase "PARK") with "PARK"%string in H5.
    unfold getAmenityConfig; destruct (String.eqb s "") eqn:E; [reflexivity|].
    cbn [AMENITY_ICONS lookup_icon fst snd].
    rewrite H1, H2, H3, H4, H5.
    destruct (String.eqb (toUpperCase s) "DEFAULT"); reflexivity.
  - repeat constructor; simpl; intuition discriminate.
  - repeat constructor; simpl; intuition discriminate.
Qed.

Lemma getAmenityConfig_lookup_witness :
  getAmenityConfig (Some "Mrt_Station"%string) = cfg_MRT.
Proof.
  apply (proj1 getAmenityConfig_lookup "Mrt_Station"%string "MRT_STATION"%string cfg_MRT);
    [left; reflexivity | reflexivity].
Defined.

(** ** The affordability calculator *)

(** C4: [evaluate] with [down_payment_pct >= 100] (100 included) fails
    with ValidationError, so it returns no value at all, and in
    particular no negative one, for such input. *)
Theorem evaluate_rejects_full_down_payment (inp : Afford.AffordabilityInput) :
  (100 <= Afford.down_payment_pct inp)%Q ->
  Afford.evaluate inp = inl Afford.ValidationError /\
  forall res, Afford.evaluate inp <> inr res.
Proof.
  intro H.
  assert (E : Afford.evaluate inp = inl Afford.ValidationError).
  { unfold Afford.evaluate; rewrite (proj2 (Qle_bool_iff _ _) H); reflexivity. }
  split; [exact E|intros res; rewrite E; discriminate].
Qed.

Lemma evaluate_rejects_full_down_payment_witness :
  Afford.evaluate (Afford.mkInput 7500 2000 (26 # 10) 25 100) = inl Afford.ValidationError /\
  forall res, Afford.evaluate (Afford.mkInput 7500 2000 (26 # 10) 25 100) <> inr res.
Proof.
  apply evaluate_rejects_full_down_payment; simpl; unfold Qle; simpl; lia.
Defined.

(** ** The affordability form *)

(** C5 (code bug): the form uses [parseFloat(...) || default], so an
    entered 0 is replaced by the default: an interest rate of "0" is sent
    as 2.6 and a down payment of "0" as 20, where the spec keeps the
    parsed 0 and defaults only a missing or unparsable field. *)
Theorem form_zero_replaced_by_default :
  let fs := Form.mkForm (Some "7500"%string) (Some "2000"%string) (Some "0"%string)
                        (Some "25"%string) (Some "0"%string) in
  Form.interest (Form.build_payload fs) = Form.JNum (26 # 10) /\
  Form.spec_field (Form.field_float (Form.af_interest fs)) (26 # 10) = Form.JNum 0 /\
  Form.down_payment_pct (Form.build_payload fs) = Form.JNum 20 /\
  Form.spec_field (Form.field_float (Form.af_downpayment fs)) 20 = Form.JNum 0.
Proof. repeat split. Qed.

(** * Further properties of the map code *)

(** ** getNearbyAmenities and the search radius *)

Lemma Rleb_true (x y : R) : Rleb x y = true <-> x <= y.
Proof. unfold Rleb; destruct (Rle_dec x y); split; intro; easy || lra. Qed.

Lemma nearby_keep_mono (lat lng r1 r2 : R) (f : jsfeature) :
  r1 <= r2 -> nearby_keep lat lng r1 f = true -> nearby_keep lat lng r2 f = true.
Proof.
  intros Hr; unfold nearby_keep.
  destruct f as [ft|]; [|easy]; destruct (fgeometry ft) as [g|]; [|easy].
  destruct (negb (String.eqb (gtype g) "Point")); [easy|].
  destruct (coordinates g) as [|[|x [|y rest]]|]; try easy.
  rewrite !Rleb_true; lra.
Qed.

(** Extra X2: widening the radius only adds amenities: the result for a
    radius [r1 <= r2] is the result for [r2] filtered by the smaller
    radius, so it is a sub-list of it in the same order. *)
Theorem nearby_radius_monotone (cache : amenities_cache) (lat lng r1 r2 : R) :
  r1 <= r2 ->
  getNearbyAmenities cache lat lng r1 =
    filter (nearby_keep lat lng r1) (getNearbyAmenities cache lat lng r2).
Proof.
  intro Hr; destruct cache as [[features|]|]; simpl; try reflexivity.
  induction features as [|f fs IH]; simpl; [reflexivity|].
  case_eq (nearby_keep lat lng r1 f); intro H1.
  - rewrite (nearby_keep_mono lat lng r1 r2 f Hr H1); simpl; rewrite H1, IH; reflexivity.
  - destruct (nearby_keep lat lng r2 f); simpl; [rewrite H1|]; exact IH.
Qed.

Lemma nearby_radius_monotone_witness :
  getNearbyAmenities (Some (Some [school_at 103.82 1.35 "A"])) 1.35 103.82 300 =
    filter (nearby_keep 1.35 103.82 300)
      (getNearbyAmenities (Some (Some [school_at 103.82 1.35 "A"])) 1.35 103.82 600).
Proof. apply nearby_radius_monotone; lra. Defined.

(** ** showAmenitiesOnMap *)

Lemma show_amenity_loop_ok (F : list jsfeature) :
  Forall (fun f => layout_safe f = true) F -> Forall valid_lat (kept_points F) ->
  forall acc, show_amenity_loop acc F = Ok (acc ++ kept_points F).
Proof.
  induction F as [|f F IH]; intros HF Hv acc; simpl; [now rewrite app_nil_r|].
  inversion HF as [|? ? Hf HF']; subst.
  destruct f as [ft|]; [|discriminate]; simpl in Hv |- *.
  unfold layout_safe, feature_point in *.
  destruct (layout_guard ft); simpl in Hv |- *; [|now apply IH].
  destruct (fgeometry ft) as [g|]; [|discriminate].
  destruct (coordinates g) as [|[|x [|y rest]]|]; try discriminate.
  inversion Hv as [|? ? Hp Hv']; subst.
  rewrite LngLat_convert_ok by exact Hp; simpl.
  rewrite IH by assumption; now rewrite <- app_assoc.
Qed.

(** Extra X3: on features whose entries are non-null and whose Point
    features carry two coordinates with valid latitudes, showAmenitiesOnMap
    draws one marker per Point feature (in order), reports the number of
    ALL features to updateAmenityStats (the skipped non-Point ones
    included), fits the camera to bounds containing every marker, and
    makes no fit when no marker was drawn. *)
Theorem showAmenitiesOnMap_markers_and_count (F : list jsfeature) :
  Forall (fun f => layout_safe f = true) F ->
  Forall valid_lat (kept_points F) ->
  exists fit,
    showAmenitiesOnMap (Some (Some F)) = Ok (Some (kept_points F, fit, List.length F)) /\
    List.length (kept_points F) = (List.length F - List.length (filter dropped F))%nat /\
    (kept_points F = [] -> fit = None) /\
    (kept_points F <> [] -> exists b, fit = Some b /\ Forall (in_bounds b) (kept_points F)).
Proof.
  intros HF Hv.
  assert (Hlen : List.length (kept_points F) = (List.length F - List.length (filter dropped F))%nat).
  { rewrite kept_points_length by exact HF; apply filter_length_split. }
  unfold showAmenitiesOnMap; rewrite (show_amenity_loop_ok F HF Hv []); cbn [bind app].
  destruct (kept_points F) as [|p0 ps] eqn:Hk.
  - exists None; simpl; repeat split; easy.
  - inversion Hv as [|? ? Hp0 _]; subst.
    destruct (reduce_extend_spec (p0 :: ps) (mkBounds (fst p0) (snd p0) (fst p0) (snd p0)))
      as (b & Hr & _ & _ & _ & Hin); [simpl; lra|simpl; lra|exact Hv|].
    exists (Some b); unfold boundsOf, LngLatBounds_new.
    rewrite LngLat_convert_ok by exact Hp0; cbn [bind]; rewrite Hr; cbn [bind].
    repeat split; [exact Hlen|discriminate|intros _; exists b; split; [reflexivity|exact Hin]].
Qed.

Definition park_feature : jsfeature :=
  Some (mkFeature (Some (mkGeometry "Polygon" CNotArray)) None).

Lemma showAmenitiesOnMap_markers_and_count_witness :
  exists fit,
    showAmenitiesOnMap (Some (Some [school_at 103.82 1.35 "A"; park_feature])) =
      Ok (Some (kept_points [school_at 103.82 1.35 "A"; park_feature], fit, 2%nat)) /\
    List.length (kept_points [school_at 103.82 1.35 "A"; park_feature]) =
      (2 - List.length (filter dropped [school_at 103.82 1.35 "A"; park_feature]))%nat /\
    (kept_points [school_at 103.82 1.35 "A"; park_feature] = [] -> fit = None) /\
    (kept_points [school_at 103.82 1.35 "A"; park_feature] <> [] -> exists b, fit = Some b /\
       Forall (in_bounds b) (kept_points [school_at 103.82 1.35 "A"; park_feature])).
Proof.
  apply showAmenitiesOnMap_markers_and_count.
  - repeat constructor.
  - simpl; repeat constructor; unfold valid_lat; simpl; lra.
Defined.

Lemma show_amenity_loop_null (F : list jsfeature) :
  In None F -> forall acc, exists e, show_amenity_loop acc F = Throw e.
Proof.
  induction F as [|f F IH]; intros Hin acc; [contradiction|].
  destruct f as [ft|]; [|exists TypeError; reflexivity].
  destruct Hin as [Heq|Hin]; [discriminate|]; cbn [show_amenity_loop].
  destruct (show_amenity_step acc (Some ft)) as [c|e]; cbn [bind]; [exact (IH Hin c)|now exists e].
Qed.

(** Extra X4: a [null] entry anywhere in [features] makes
    showAmenitiesOnMap throw: the call never reaches the camera fit or
    the stats update. *)
Theorem showAmenitiesOnMap_null_entry_throws (F : list jsfeature) :
  In None F -> exists e, showAmenitiesOnMap (Some (Some F)) = Throw e.
Proof.
  intro Hin; destruct (show_amenity_loop_null F Hin []) as [e He].
  exists e; unfold showAmenitiesOnMap; rewrite He; reflexivity.
Qed.

Lemma showAmenitiesOnMap_null_entry_throws_witness :
  exists e, showAmenitiesOnMap (Some (Some [school_at 103.82 1.35 "A"; None])) = Throw e.
Proof. apply showAmenitiesOnMap_null_entry_throws; right; left; reflexivity. Defined.

(** ** getPriceRange *)

Module ListingsFacts.
Import Form Listings.
Local Open Scope Q_scope.

Lemma round_to_1000_num (q c : Q) :
  exists z : Z, round_to_1000 (JNum q) c = JNum (inject_Z z * 1000) /\
    q * c - 500 < inject_Z z * 1000 <= q * c + 500 /\
    z = Qfloor (q * c * (1 # 1000) + (1 # 2)).
Proof.
  exists (Qfloor (q * c * (1 # 1000) + (1 # 2))); split; [reflexivity|split; [|reflexivity]].
  pose proof (Qfloor_le (q * c * (1 # 1000) + (1 # 2))) as H1.
  pose proof (Qlt_floor (q * c * (1 # 1000) + (1 # 2))) as H2.
  rewrite inject_Z_plus in H2; change (inject_Z 1) with 1 in H2.
  split; Lqa.lra.
Qed.

(** Extra X5: for a nonzero finite numeric price [p], getPriceRange
    returns [min] and [max] that are multiples of 1000 within 500 of
    [0.95 p] and [1.05 p]; [min <= max] when [p > 0] (and the range then
    contains [p] once [p >= 10000]), while a negative price gives an
    inverted range [max <= min]. *)
Theorem getPriceRange_nonzero (p : Q) :
  ~ p == 0 ->
  exists lo hi : Z,
    getPriceRange (FNum (JNum p)) = Some (JNum (inject_Z lo * 1000), JNum (inject_Z hi * 1000)) /\
    p * (95 # 100) - 500 < inject_Z lo * 1000 <= p * (95 # 100) + 500 /\
    p * (105 # 100) - 500 < inject_Z hi * 1000 <= p * (105 # 100) + 500 /\
    (0 < p -> (lo <= hi)%Z) /\
    (p < 0 -> (hi <= lo)%Z) /\
    (10000 <= p -> inject_Z lo * 1000 <= p <= inject_Z hi * 1000).
Proof.
  intro Hp.
  destruct (round_to_1000_num p (95 # 100)) as (lo & Elo & Blo & Zlo).
  destruct (round_to_1000_num p (105 # 100)) as (hi & Ehi & Bhi & Zhi).
  exists lo, hi; split.
  { unfold getPriceRange, price_number; rewrite Elo, Ehi; simpl.
    case_eq (Qeq_bool p 0); intro E; [apply Qeq_bool_iff in E; contradiction|reflexivity]. }
  split; [exact Blo|split; [exact Bhi|split; [|split]]].
  - intro Hpos; rewrite Zlo, Zhi; apply Qfloor_resp_le; Lqa.lra.
  - intro Hneg; rewrite Zlo, Zhi; apply Qfloor_resp_le; Lqa.lra.
  - intro Hbig; split; Lqa.lra.
Qed.

Lemma getPriceRange_nonzero_witness :
  exists lo hi : Z,
    getPriceRange (FNum (JNum 452000)) = Some (JNum (inject_Z lo * 1000), JNum (inject_Z hi * 1000)) /\
    452000 * (95 # 100) - 500 < inject_Z lo * 1000 <= 452000 * (95 # 100) + 500 /\
    452000 * (105 # 100) - 500 < inject_Z hi * 1000 <= 452000 * (105 # 100) + 500 /\
    (0 < 452000 -> (lo <= hi)%Z) /\
    (452000 < 0 -> (hi <= lo)%Z) /\
    (10000 <= 452000 -> inject_Z lo * 1000 <= 452000 <= inject_Z hi * 1000).
Proof. apply getPriceRange_nonzero; discriminate. Defined.


(** ** The affordability filter and the popup price *)

Lemma getPriceRange_num (x : jsnum) :
  truthy x = true -> exists r, getPriceRange (FNum x) = Some r.
Proof.
  intro Ht; unfold getPriceRange, price_number; rewrite Ht.
  destruct x; [discriminate| |]; simpl; eexists; reflexivity.
Qed.

Ltac fval_cases v :=
  destruct v as [| |?|[|? ?]]; cbn [nullish_or find present negb String.eqb] in *.

Lemma keep_popup_eq (maxPropertyValue : jsnum) (l : listing) :
  affordable_keep maxPropertyValue l = true -> popup_price l = FNum (affordable_price l).
Proof.
  intro Hk; unfold affordable_keep, popup_price, priceCandidate, affordable_price in *.
  destruct l as [la lo p rp ep]; cbn [price resale_price estimated_price] in *.
  fval_cases p; try reflexivity; try discriminate;
  fval_cases rp; try reflexivity; try discriminate;
  fval_cases ep; try reflexivity; discriminate.
Qed.

Lemma keep_popup_range (maxPropertyValue : jsnum) (l : listing) :
  affordable_keep maxPropertyValue l = true -> exists r, getPriceRange (popup_price l) = Some r.
Proof.
  intro Hk; rewrite (keep_popup_eq maxPropertyValue l Hk).
  unfold affordable_keep in Hk; apply andb_prop in Hk as [Hk _]; apply andb_prop in Hk as [Ht _].
  exact (getPriceRange_num _ Ht).
Qed.

(** Extra X6: a listing the affordability filter keeps is shown by
    showListingsOnMap with the very price the filter tested: the popup
    price is that number, it is [<= maxPropertyValue], and the popup
    gets a price range. *)
Theorem affordable_listing_popup_price (maxPropertyValue : jsnum) (l : listing) :
  affordable_keep maxPropertyValue l = true ->
  popup_price l = FNum (affordable_price l) /\
  js_le (affordable_price l) maxPropertyValue = true /\
  exists r, getPriceRange (popup_price l) = Some r.
Proof.
  intro Hk; pose proof (keep_popup_eq maxPropertyValue l Hk) as Hp.
  unfold affordable_keep in Hk.
  apply andb_prop in Hk as [Hk Hle]; apply andb_prop in Hk as [Ht _].
  split; [exact Hp|split; [exact Hle|rewrite Hp; exact (getPriceRange_num _ Ht)]].
Qed.

Lemma affordable_listing_popup_price_witness :
  let l := mkListing (FNum (JNum (135 # 100))) (FNum (JNum 103)) FUndef
                     (FStr "420000") FNull in
  popup_price l = FNum (affordable_price l) /\
  js_le (affordable_price l) (JNum 500000) = true /\
  exists r, getPriceRange (popup_price l) = Some r.
Proof. apply affordable_listing_popup_price; vm_compute; reflexivity. Defined.

(** Extra X7: the filter and the popup disagree on an empty-string
    [price]: [??] stops at [""], so the filter drops the listing whatever
    its [resale_price], while the popup's [find] skips [""] and shows the
    resale price. *)
Theorem empty_price_dropped_by_filter (maxPropertyValue : jsnum) (l : listing) (r : jsnum) :
  price l = FStr "" -> resale_price l = FNum r ->
  affordable_keep maxPropertyValue l = false /\ popup_price l = FNum r.
Proof.
  intros Hp Hr; unfold affordable_keep, affordable_price, popup_price, priceCandidate.
  rewrite Hp, Hr; split; reflexivity.
Qed.

Lemma empty_price_dropped_by_filter_witness :
  let l := mkListing (FNum (JNum (135 # 100))) (FNum (JNum 103)) (FStr "")
                     (FNum (JNum 300000)) FUndef in
  affordable_keep (JNum 500000) l = false /\ popup_price l = FNum (JNum 300000).
Proof. apply empty_price_dropped_by_filter; reflexivity. Defined.


(** ** showListingsOnMap *)

Definition has_coords (l : listing) : bool :=
  fval_truthy (latitude l) && fval_truthy (longitude l).

Definition coords_ok (l : listing) : bool :=
  lnglat_ok (parse_val (longitude l)) (parse_val (latitude l)).

Definition marker_of (l : listing) : lmarker :=
  (parse_val (longitude l), parse_val (latitude l), getPriceRange (popup_price l)).

Lemma show_listing_step_skip (acc : list lmarker) (l : listing) :
  has_coords l = false -> show_listing_step acc l = Ok acc.
Proof.
  unfold has_coords, show_listing_step; intro H.
  destruct (fval_truthy (latitude l)), (fval_truthy (longitude l)); easy.
Qed.

Lemma show_listing_step_draw (acc : list lmarker) (l : listing) :
  has_coords l = true -> coords_ok l = true -> show_listing_step acc l = Ok (acc ++ [marker_of l]).
Proof.
  unfold has_coords, coords_ok, show_listing_step; intros H Hc.
  apply andb_prop in H as [H1 H2]; rewrite H1, H2; simpl; rewrite Hc; reflexivity.
Qed.

Lemma show_listing_step_fail (acc : list lmarker) (l : listing) :
  has_coords l = true -> coords_ok l = false -> show_listing_step acc l = Throw InvalidLngLat.
Proof.
  unfold has_coords, coords_ok, show_listing_step; intros H Hc.
  apply andb_prop in H as [H1 H2]; rewrite H1, H2; simpl; rewrite Hc; reflexivity.
Qed.

Definition listings_ok (ls : list listing) : Prop :=
  forall l, In l ls -> has_coords l = true -> coords_ok l = true.

Lemma listing_loop_ok (ls : list listing) :
  listings_ok ls ->
  forall acc, listing_loop acc ls = (acc ++ map marker_of (filter has_coords ls), None).
Proof.
  induction ls as [|l ls IH]; intros Hok acc; simpl; [now rewrite app_nil_r|].
  assert (Hok' : listings_ok ls) by (intros l' Hin; apply Hok; now right).
  case_eq (has_coords l); intro Hc.
  - rewrite show_listing_step_draw by (exact Hc || (apply Hok; [now left|exact Hc])).
    rewrite IH by exact Hok'; simpl; now rewrite <- app_assoc.
  - rewrite show_listing_step_skip by exact Hc; apply IH, Hok'.
Qed.

Lemma listing_loop_fail (ls1 : list listing) (l : listing) (ls2 : list listing) :
  listings_ok ls1 -> has_coords l = true -> coords_ok l = false ->
  forall acc, listing_loop acc (ls1 ++ l :: ls2) =
    (acc ++ map marker_of (filter has_coords ls1), Some InvalidLngLat).
Proof.
  induction ls1 as [|l1 ls1 IH]; intros Hok Hc Hbad acc; simpl.
  - rewrite show_listing_step_fail by assumption; now rewrite app_nil_r.
  - assert (Hok' : listings_ok ls1) by (intros l' Hin; apply Hok; now right).
    case_eq (has_coords l1); intro Hc1.
    + rewrite show_listing_step_draw by (exact Hc1 || (apply Hok; [now left|exact Hc1])).
      rewrite IH by assumption; simpl; now rewrite <- app_assoc.
    + rewrite show_listing_step_skip by exact Hc1; apply IH; assumption.
Qed.

(** Extra X8: on a non-empty list whose listings with coordinates all
    have a valid position, showListingsOnMap replaces the markers on the
    map by one marker per listing whose [latitude] and [longitude] are
    both truthy, in order; a listing with a missing, empty or zero
    coordinate gets no marker. *)
Theorem showListingsOnMap_replaces (onMap : list lmarker) (ls : list listing) :
  ls <> [] -> listings_ok ls ->
  showListingsOnMap onMap ls = (map marker_of (filter has_coords ls), None).
Proof.
  intros Hne Hok; destruct ls as [|l ls]; [contradiction|].
  exact (listing_loop_ok (l :: ls) Hok []).
Qed.

Lemma showListingsOnMap_replaces_witness :
  let l1 := mkListing (FNum (JNum (135 # 100))) (FNum (JNum 103)) (FNum (JNum 400000)) FUndef FUndef in
  let l2 := mkListing (FNum (JNum 0)) (FNum (JNum 103)) (FNum (JNum 400000)) FUndef FUndef in
  showListingsOnMap [] [l1; l2] = (map marker_of (filter has_coords [l1; l2]), None).
Proof.
  apply showListingsOnMap_replaces; [discriminate|].
  intros l Hin Hc; destruct Hin as [<-|[<-|[]]]; [reflexivity|discriminate].
Defined.

(** Extra X9: when a listing with truthy coordinates has a position
    [new LngLat] rejects (a latitude string that does not parse, or one
    beyond 90 degrees), showListingsOnMap throws there: the old markers
    are gone, the markers of the listings before it stay, and no later
    listing is drawn. *)
Theorem showListingsOnMap_bad_position (onMap : list lmarker)
    (ls1 : list listing) (l : listing) (ls2 : list listing) :
  listings_ok ls1 -> has_coords l = true -> coords_ok l = false ->
  showListingsOnMap onMap (ls1 ++ l :: ls2) =
    (map marker_of (filter has_coords ls1), Some InvalidLngLat).
Proof.
  intros Hok Hc Hbad; unfold showListingsOnMap.
  destruct (ls1 ++ l :: ls2) eqn:E; [destruct ls1; discriminate|].
  rewrite <- E; exact (listing_loop_fail ls1 l ls2 Hok Hc Hbad []).
Qed.

Lemma showListingsOnMap_bad_position_witness :
  let l1 := mkListing (FNum (JNum (135 # 100))) (FNum (JNum 103)) (FNum (JNum 400000)) FUndef FUndef in
  let l2 := mkListing (FStr "abc") (FNum (JNum 103)) (FNum (JNum 400000)) FUndef FUndef in
  showListingsOnMap [] ([l1] ++ l2 :: [l1]) =
    (map marker_of (filter has_coords [l1]), Some InvalidLngLat).
Proof.
  apply showListingsOnMap_bad_position; [|reflexivity|vm_compute; reflexivity].
  intros l Hin Hc; destruct Hin as [<-|[]]; reflexivity.
Defined.

(** ** loadAffordableListingsOnMap *)

(** Extra X10: loadAffordableListingsOnMap leaves the listing markers on
    the map as they were when [maxPropertyValue] is 0 or NaN, when the
    search response is unusable, and also when no listing passes the
    price filter (showListingsOnMap then returns before clearing): the
    map keeps showing the previous listings. *)
Theorem loadAffordable_keeps_old_markers (onMap : list lmarker) (m : jsnum)
    (results : option (list listing)) :
  (truthy m = false \/ results = None \/
   exists all, results = Some all /\ forall l, In l all -> affordable_keep m l = false) ->
  loadAffordableListingsOnMap onMap m results = onMap.
Proof.
  unfold loadAffordableListingsOnMap.
  intros [Hm|[Hr|(all & Hr & Hall)]]; [now rewrite Hm| |].
  - destruct (negb (truthy m) || is_nan m); [reflexivity|now rewrite Hr].
  - destruct (negb (truthy m) || is_nan m); [reflexivity|rewrite Hr].
    assert (E : filter (affordable_keep m) all = []).
    { clear Hr; induction all as [|a all IH]; [reflexivity|simpl].
      rewrite (Hall a (or_introl eq_refl)); apply IH; intros l Hin; apply Hall; now right. }
    rewrite E; reflexivity.
Qed.

Lemma loadAffordable_keeps_old_markers_witness :
  let old := [(JNum 103, JNum (135 # 100), None)] in
  let l := mkListing (FNum (JNum (135 # 100))) (FNum (JNum 103)) (FStr "")
                     (FNum (JNum 300000)) FUndef in
  loadAffordableListingsOnMap old (JNum 500000) (Some [l]) = old.
Proof.
  apply loadAffordable_keeps_old_markers; right; right.
  eexists; split; [reflexivity|]; intros l Hin; destruct Hin as [<-|[]]; reflexivity.
Defined.

Lemma listing_loop_from (ls : list listing) :
  forall acc mk, In mk (fst (listing_loop acc ls)) ->
    In mk acc \/ exists l, In l ls /\ has_coords l = true /\ mk = marker_of l.
Proof.
  induction ls as [|l ls IH]; intros acc mk Hin; simpl in Hin; [now left|].
  case_eq (has_coords l); intro Hc.
  - case_eq (coords_ok l); intro Hok.
    + rewrite show_listing_step_draw in Hin by assumption.
      destruct (IH _ _ Hin) as [H|(l' & H1 & H2 & H3)].
      * apply in_app_or in H as [H|[<-|[]]]; [now left|right; exists l; simpl; auto].
      * right; exists l'; simpl; auto.
    + rewrite show_listing_step_fail in Hin by assumption; now left.
  - rewrite show_listing_step_skip in Hin by assumption.
    destruct (IH _ _ Hin) as [H|(l' & H1 & H2 & H3)]; [now left|right; exists l'; simpl; auto].
Qed.

(** Extra X11: once at least one listing of the response passes the
    price filter, every marker left on the map by
    loadAffordableListingsOnMap belongs to such a listing (with truthy
    coordinates), and its popup has a price range whose price is
    [<= maxPropertyValue]; this holds even when drawing stops on a bad
    position. *)
Theorem loadAffordable_markers_affordable (onMap : list lmarker) (m : jsnum)
    (all : list listing) :
  truthy m = true -> filter (affordable_keep m) all <> [] ->
  forall mk, In mk (loadAffordableListingsOnMap onMap m (Some all)) ->
    exists l, In l all /\ affordable_keep m l = true /\ has_coords l = true /\
      mk = marker_of l /\ js_le (affordable_price l) m = true /\
      exists r, snd mk = Some r.
Proof.
  intros Hm Hne mk Hin; unfold loadAffordableListingsOnMap in Hin.
  rewrite Hm in Hin; destruct m as [|q|neg]; [discriminate| |]; cbn [negb orb is_nan] in Hin;
  unfold showListingsOnMap in Hin;
  destruct (filter (affordable_keep _) all) as [|l0 ls0] eqn:Ef; try contradiction;
  rewrite <- Ef in Hin;
  (destruct (listing_loop_from _ [] mk Hin) as [[]|(l & Hl & Hc & ->)];
   apply filter_In in Hl as [Hl Hk];
   exists l; repeat split; try assumption;
   [apply andb_prop in Hk as [_ Hk]; exact Hk|
    unfold marker_of; simpl; destruct (keep_popup_range _ l Hk) as [r Hr]; exists r; exact Hr]).
Qed.

Definition sample_listing : listing :=
  mkListing (FNum (JNum (135 # 100))) (FNum (JNum 103)) FUndef (FStr "420000") FNull.

Lemma loadAffordable_markers_affordable_witness :
  In (marker_of sample_listing) (loadAffordableListingsOnMap [] (JNum 500000) (Some [sample_listing])) /\
  exists l', In l' [sample_listing] /\ affordable_keep (JNum 500000) l' = true /\
    has_coords l' = true /\ marker_of sample_listing = marker_of l' /\
    js_le (affordable_price l') (JNum 500000) = true /\
    exists r, snd (marker_of sample_listing) = Some r.
Proof.
  assert (Hin : In (marker_of sample_listing)
                   (loadAffordableListingsOnMap [] (JNum 500000) (Some [sample_listing]))).
  { vm_compute; left; reflexivity. }
  split; [exact Hin|].
  apply (loadAffordable_markers_affordable [] (JNum 500000) [sample_listing]);
    [reflexivity|vm_compute; discriminate|exact Hin].
Defined.

End ListingsFacts.

(** ** highlightComparedTownsOnMap *)

Module CompareFacts.
Import Form Compare.

(** Shapes the traversal handles without a TypeError: every container
    it iterates is an array or falsy. The points it collects: finite
    coordinate pairs of the Polygon and MultiPolygon rings, and the
    centre of a town without a geometry source. *)
Definition arr_ok (v : narr) : bool :=
  match v with NArr _ => true | _ => negb (narr_truthy v) end.

Definition arr_items (v : narr) : list narr :=
  match v with NArr xs => xs | _ => [] end.

Definition coord_points (c : narr) : list (R * R) :=
  match finite_pair c with Some p => [p] | None => [] end.

Definition ring_points (r : narr) : list (R * R) := flat_map coord_points (arr_items r).
Definition poly_points (p : narr) : list (R * R) := flat_map ring_points (arr_items p).

Definition coord_ok (c : narr) : Prop := Forall valid_lat (coord_points c).
Definition ring_ok (r : narr) : Prop := arr_ok r = true /\ Forall coord_ok (arr_items r).
Definition poly_ok (p : narr) : Prop := arr_ok p = true /\ Forall ring_ok (arr_items p).

Definition geom_live (g : geom) : option string :=
  match g_type g with
  | Some t => if String.eqb t "" || negb (narr_truthy (g_coordinates g)) then None else Some t
  | None => None
  end.

Definition geom_points (g : geom) : list (R * R) :=
  match geom_live g with
  | Some t =>
    if String.eqb t "Polygon" then flat_map ring_points (arr_items (g_coordinates g))
    else if String.eqb t "MultiPolygon" then flat_map poly_points (arr_items (g_coordinates g))
    else []
  | None => []
  end.

Definition geom_ok (g : geom) : Prop :=
  match geom_live g with
  | Some t =>
    if String.eqb t "Polygon" then
      arr_ok (g_coordinates g) = true /\ Forall ring_ok (arr_items (g_coordinates g))
    else if String.eqb t "MultiPolygon" then
      arr_ok (g_coordinates g) = true /\ Forall poly_ok (arr_items (g_coordinates g))
    else True
  | None => True
  end.

Definition feat_points (f : option (option geom)) : list (R * R) :=
  match f with Some (Some g) => geom_points g | _ => [] end.
Definition feat_ok (f : option (option geom)) : Prop :=
  match f with Some (Some g) => geom_ok g | _ => True end.

Definition source_geom (gs : gsource) : geom := mkGeom (gs_type gs) (gs_coordinates gs).

Definition gs_points (gs : gsource) : list (R * R) :=
  match fc_features gs with
  | Some feats => flat_map feat_points feats
  | None =>
    if is_type (gs_type gs) "Polygon" || is_type (gs_type gs) "MultiPolygon"
    then geom_points (source_geom gs) else []
  end.

Definition gs_ok (gs : gsource) : Prop :=
  match fc_features gs with
  | Some feats => Forall feat_ok feats
  | None =>
    if is_type (gs_type gs) "Polygon" || is_type (gs_type gs) "MultiPolygon"
    then geom_ok (source_geom gs) else True
  end.

Definition centre_point (t : town) : option (R * R) :=
  match narr_number (center_lat t), narr_number (center_lng t) with
  | JNum lat, JNum lng => Some (Q2R lng, Q2R lat)
  | _, _ => None
  end.

Definition town_points (t : town) : list (R * R) :=
  match geomSource t with
  | Some gs => gs_points gs
  | None => match centre_point t with Some p => [p] | None => [] end
  end.

Definition town_ok (t : town) : Prop :=
  (match geomSource t with Some gs => gs_ok gs | None => True end) /\
  (match centre_point t with Some p => valid_lat p | None => True end).

Definition opt_points (o : option town) : list (R * R) :=
  match o with Some t => town_points t | None => [] end.
Definition opt_ok (o : option town) : Prop :=
  match o with Some t => town_ok t | None => True end.
Definition has_centre (o : option town) : bool :=
  match o with Some t => match centre_point t with Some _ => true | None => false end | None => false end.

(** Bounds covering the points collected so far. *)
Definition binv (bnd : option bounds) (P : list (R * R)) : Prop :=
  (bnd = None /\ P = []) \/
  (exists b, bnd = Some b /\ P <> [] /\ sw_lng b <= ne_lng b /\ sw_lat b <= ne_lat b /\
     Forall (in_bounds b) P).

Lemma foldM_inv {A B T} (f : A -> B -> jsresult A) (Inv : A -> T -> Prop)
    (step : T -> B -> T) (ok : B -> Prop) :
  (forall a x t, ok x -> Inv a t -> exists a', f a x = Ok a' /\ Inv a' (step t x)) ->
  forall l a t, Forall ok l -> Inv a t ->
    exists a', foldM f a l = Ok a' /\ Inv a' (fold_left step l t).
Proof.
  intros Hf l; induction l as [|x l IH]; intros a t Hl Ha; [exists a; split; easy|].
  inversion Hl as [|? ? Hx Hl']; subst.
  destruct (Hf a x t Hx Ha) as (a1 & E & I1); simpl; rewrite E; simpl.
  exact (IH a1 (step t x) Hl' I1).
Qed.

Lemma fold_left_app_flat {B} (g : B -> list (R * R)) (l : list B) (P : list (R * R)) :
  fold_left (fun P x => P ++ g x) l P = P ++ flat_map g l.
Proof.
  revert P; induction l as [|x l IH]; intro P; simpl; [now rewrite app_nil_r|].
  rewrite IH; now rewrite app_assoc.
Qed.

Lemma foldM_inv_app {A B} (f : A -> B -> jsresult A) (Inv : A -> list (R * R) -> Prop)
    (g : B -> list (R * R)) (ok : B -> Prop) :
  (forall a x P, ok x -> Inv a P -> exists a', f a x = Ok a' /\ Inv a' (P ++ g x)) ->
  forall l a P, Forall ok l -> Inv a P ->
    exists a', foldM f a l = Ok a' /\ Inv a' (P ++ flat_map g l).
Proof.
  intros Hf l a P Hl Ha.
  destruct (foldM_inv f Inv (fun P x => P ++ g x) ok Hf l a P Hl Ha) as (a' & E & I).
  exists a'; split; [exact E|]; now rewrite fold_left_app_flat in I.
Qed.

Lemma add_point_inv (bnd : option bounds) (P : list (R * R)) (p : R * R) :
  valid_lat p -> binv bnd P -> exists bnd', add_point bnd p = Ok bnd' /\ binv bnd' (P ++ [p]).
Proof.
  intros Hp [[-> ->]|(b & -> & HP & H1 & H2 & Hin)].
  - eexists; split.
    + unfold add_point, LngLatBounds_new; rewrite LngLat_convert_ok by exact Hp; reflexivity.
    + right; eexists; split; [reflexivity|]; simpl; split; [discriminate|].
      split; [lra|split; [lra|]]; constructor; [unfold in_bounds; simpl; lra|constructor].
  - destruct (reduce_extend_spec [p] b H1 H2 (Forall_cons _ Hp (Forall_nil _)))
      as (b' & Hr & Hw & H1' & H2' & Hin').
    simpl in Hr; destruct (extend b p) as [b1|e] eqn:E; simpl in Hr; [|discriminate].
    injection Hr as <-.
    exists (Some b1); split; [unfold add_point; rewrite E; reflexivity|].
    right; exists b1; split; [reflexivity|split; [destruct P; discriminate|]].
    split; [exact H1'|split; [exact H2'|]].
    apply Forall_app; split; [|exact Hin'].
    eapply Forall_impl; [|exact Hin]; intros q Hq; exact (in_bounds_within b b1 q Hw Hq).
Qed.

Lemma extendCoord_inv (bnd : option bounds) (P : list (R * R)) (c : narr) :
  coord_ok c -> binv bnd P -> exists bnd', extendCoord bnd c = Ok bnd' /\ binv bnd' (P ++ coord_points c).
Proof.
  unfold coord_ok, coord_points, extendCoord; intros Hc HP.
  destruct (finite_pair c) as [p|].
  - inversion Hc; subst; now apply add_point_inv.
  - exists bnd; now rewrite app_nil_r.
Qed.

Lemma array_or_empty_ok (v : narr) : arr_ok v = true -> array_or_empty v = Ok (arr_items v).
Proof.
  destruct v as [|[x|s]|xs]; simpl; intro H; try reflexivity;
  match goal with |- (if ?b then _ else _) = _ => destruct b end; easy.
Qed.

Lemma extend_ring_inv (bnd : option bounds) (P : list (R * R)) (r : narr) :
  ring_ok r -> binv bnd P -> exists bnd', extend_ring bnd r = Ok bnd' /\ binv bnd' (P ++ ring_points r).
Proof.
  intros [Ha Hl] HP; unfold extend_ring, ring_points; rewrite array_or_empty_ok by exact Ha; simpl.
  exact (foldM_inv_app extendCoord binv coord_points coord_ok (fun a x Q => extendCoord_inv a Q x) _ bnd P Hl HP).
Qed.

Lemma extend_poly_inv (bnd : option bounds) (P : list (R * R)) (p : narr) :
  poly_ok p -> binv bnd P -> exists bnd', extend_poly bnd p = Ok bnd' /\ binv bnd' (P ++ poly_points p).
Proof.
  intros [Ha Hl] HP; unfold extend_poly, poly_points; rewrite array_or_empty_ok by exact Ha; simpl.
  exact (foldM_inv_app extend_ring binv ring_points ring_ok (fun a x Q => extend_ring_inv a Q x) _ bnd P Hl HP).
Qed.

Lemma extendBounds_inv (bnd : option bounds) (P : list (R * R)) (g : geom) :
  geom_ok g -> binv bnd P ->
  exists bnd', extendBoundsFromGeometry bnd g = Ok bnd' /\ binv bnd' (P ++ geom_points g).
Proof.
  unfold geom_ok, geom_points, geom_live, extendBoundsFromGeometry; intros Hg HP.
  destruct (g_type g) as [t|]; [|exists bnd; now rewrite app_nil_r].
  destruct (String.eqb t "" || negb (narr_truthy (g_coordinates g))); [exists bnd; now rewrite app_nil_r|].
  destruct (String.eqb t "Polygon").
  - destruct Hg as [Ha Hl]; rewrite array_or_empty_ok by exact Ha; simpl.
    exact (foldM_inv_app extend_ring binv ring_points ring_ok (fun a x Q => extend_ring_inv a Q x) _ bnd P Hl HP).
  - destruct (String.eqb t "MultiPolygon"); [|exists bnd; now rewrite app_nil_r].
    destruct Hg as [Ha Hl]; rewrite array_or_empty_ok by exact Ha; simpl.
    exact (foldM_inv_app extend_poly binv poly_points poly_ok (fun a x Q => extend_poly_inv a Q x) _ bnd P Hl HP).
Qed.

Definition sinv (n : nat) (st : hl_state) (P : list (R * R)) : Prop :=
  binv (hl_bounds st) P /\ n_markers st = n.

Lemma add_feature_inv (n : nat) (st : hl_state) (P : list (R * R)) (g : geom) :
  geom_ok g -> sinv n st P -> exists st', add_feature st g = Ok st' /\ sinv n st' (P ++ geom_points g).
Proof.
  intros Hg [HP Hn]; destruct (extendBounds_inv _ P g Hg HP) as (b & E & Hb).
  unfold add_feature; rewrite E; simpl; eexists; split; [reflexivity|split; [exact Hb|exact Hn]].
Qed.

Lemma town_geometry_inv (n : nat) (st : hl_state) (P : list (R * R)) (gs : gsource) :
  gs_ok gs -> sinv n st P -> exists st', town_geometry st gs = Ok st' /\ sinv n st' (P ++ gs_points gs).
Proof.
  unfold gs_ok, gs_points, town_geometry; intros Hg HP.
  destruct (fc_features gs) as [feats|].
  - apply (foldM_inv_app fc_feature (sinv n) feat_points feat_ok); [|exact Hg|exact HP].
    intros a [[g|]|] Q Hx Ha; simpl in *; [now apply add_feature_inv| |];
      exists a; now rewrite app_nil_r.
  - destruct (is_type (gs_type gs) "Polygon" || is_type (gs_type gs) "MultiPolygon");
      [now apply add_feature_inv|exists st; now rewrite app_nil_r].
Qed.

Lemma town_step_inv (st : hl_state) (o : option town) (P : list (R * R)) (n : nat) :
  opt_ok o -> sinv n st P ->
  exists st', town_step st o = Ok st' /\
    sinv (n + if has_centre o then 1 else 0)%nat st' (P ++ opt_points o).
Proof.
  destruct o as [t|]; intros Ho HP; simpl; [|exists st; rewrite Nat.add_0_r, app_nil_r; easy].
  destruct Ho as [Hg Hc].
  assert (Hgeo : exists st1, match geomSource t with Some gs => town_geometry st gs | None => Ok st end = Ok st1 /\
            sinv n st1 (P ++ match geomSource t with Some gs => gs_points gs | None => [] end)).
  { destruct (geomSource t) as [gs|]; [now apply town_geometry_inv|exists st; now rewrite app_nil_r]. }
  destruct Hgeo as (st1 & E1 & [Hb1 Hn1]); rewrite E1; simpl.
  unfold town_centre, town_points; unfold centre_point in Hc |- *.
  destruct (narr_number (center_lat t)) as [|lat|], (narr_number (center_lng t)) as [|lng|];
    try (exists st1; split; [reflexivity|]; rewrite Nat.add_0_r; split; assumption).
  rewrite LngLat_convert_ok by exact Hc; simpl.
  destruct (geomSource t) as [gs|].
  - eexists; split; [reflexivity|split; [exact Hb1|simpl; lia]].
  - rewrite app_nil_r in Hb1.
    destruct (add_point_inv _ _ _ Hc Hb1) as (b & Eb & Hb); rewrite Eb; simpl.
    eexists; split; [reflexivity|split; [exact Hb|simpl; lia]].
Qed.

Lemma fold_town_step (ts : list (option town)) (P : list (R * R)) (n : nat) :
  fold_left (fun (Pn : list (R * R) * nat) o =>
               (fst Pn ++ opt_points o, (snd Pn + if has_centre o then 1 else 0)%nat)) ts (P, n) =
  (P ++ flat_map opt_points ts, (n + List.length (filter has_centre ts))%nat).
Proof.
  revert P n; induction ts as [|o ts IH]; intros P n; simpl; [now rewrite app_nil_r, Nat.add_0_r|].
  rewrite IH, app_assoc; f_equal; destruct (has_centre o); simpl; lia.
Qed.


(** Extra X12: on a non-empty comparison whose towns have well-shaped
    geometry (each array it iterates is an array or falsy) and valid
    latitudes, highlightComparedTownsOnMap adds one centre marker per
    town with a finite centre, calls [fitBounds] exactly when it
    collected a point, and the fitted bounds contain every collected
    point: the finite coordinate pairs of the towns' Polygon and
    MultiPolygon rings (malformed pairs are skipped), plus the centre of
    each town that has no boundary or geometry object. *)
Theorem highlight_bounds_cover_points (ts : list (option town)) :
  ts <> [] -> Forall opt_ok ts ->
  exists st,
    highlightComparedTownsOnMap (Some ts) = Ok (Some st) /\
    n_markers st = List.length (filter has_centre ts) /\
    (hl_bounds st = None <-> flat_map opt_points ts = []) /\
    (forall b, hl_bounds st = Some b -> Forall (in_bounds b) (flat_map opt_points ts)).
Proof.
  intros Hne Hok.
  destruct (foldM_inv town_step (fun st (Pn : list (R * R) * nat) => sinv (snd Pn) st (fst Pn))
              (fun Pn o => (fst Pn ++ opt_points o, (snd Pn + if has_centre o then 1 else 0)%nat))
              opt_ok (fun a x Pn Hx Ha => town_step_inv a x (fst Pn) (snd Pn) Hx Ha)
              ts (mkHl 0 None 0) ([], 0%nat) Hok) as (st & E & Hinv).
  { split; [left; split; reflexivity|reflexivity]. }
  rewrite fold_town_step in Hinv; destruct Hinv as [Hb Hn]; simpl in Hb, Hn.
  exists st; split.
  { destruct ts as [|t ts']; [contradiction|]; unfold highlightComparedTownsOnMap; rewrite E; reflexivity. }
  split; [exact Hn|].
  destruct Hb as [[-> ->]|(b & -> & HP & _ & _ & Hin)].
  - split; [split; reflexivity|discriminate].
  - split; [split; [discriminate|contradiction]|intros b' Hb'; injection Hb' as <-; exact Hin].
Qed.

Definition num (q : Q) : narr := NLeaf (LNum (JNum q)).

(** A town with a one-ring Polygon boundary and a centre, a [null]
    entry, and a town given only by its centre (as strings). *)
Definition compare_sample : list (option town) :=
  [Some (mkTown (Some (mkSource (Some "Polygon"%string)
                         (NArr [NArr [NArr [num (1038 # 10); num (135 # 100)];
                                      NArr [num (1039 # 10); num (14 # 10)];
                                      NArr [NNull]]]) None))
                None (num (137 # 100)) (num (10385 # 100)));
   None;
   Some (mkTown None None (NLeaf (LStr "1.3")) (NLeaf (LStr "103.7")))].

Lemma highlight_bounds_cover_points_witness :
  exists st,
    highlightComparedTownsOnMap (Some compare_sample) = Ok (Some st) /\
    n_markers st = List.length (filter has_centre compare_sample) /\
    (hl_bounds st = None <-> flat_map opt_points compare_sample = []) /\
    (forall b, hl_bounds st = Some b -> Forall (in_bounds b) (flat_map opt_points compare_sample)).
Proof.
  apply highlight_bounds_cover_points; [discriminate|].
  unfold compare_sample; repeat (apply Forall_cons || apply Forall_nil); unfold opt_ok, town_ok; simpl.
  - split; [|unfold valid_lat, Q2R; simpl; lra].
    unfold gs_ok; simpl; split; [reflexivity|].
    repeat (apply Forall_cons || apply Forall_nil); unfold ring_ok; simpl; split; [reflexivity|].
    repeat (apply Forall_cons || apply Forall_nil); unfold coord_ok, coord_points; simpl;
      repeat constructor; unfold valid_lat, Q2R; simpl; lra.
  - exact I.
  - split; [exact I|unfold valid_lat, Q2R; simpl; lra].
Defined.


(** Extra X13: when the first town's boundary (or geometry) is a Polygon
    whose first ring is a truthy value that is not an array (a number or
    a non-empty string), [(ring || []).forEach] is not a function and
    highlightComparedTownsOnMap throws a TypeError, whatever follows. *)
Theorem highlight_bad_ring_throws (t : town) (gs : gsource) (ring : narr) (rest : list narr)
    (ts : list (option town)) :
  geomSource t = Some gs -> fc_features gs = None -> gs_type gs = Some "Polygon"%string ->
  gs_coordinates gs = NArr (ring :: rest) -> arr_ok ring = false ->
  highlightComparedTownsOnMap (Some (Some t :: ts)) = Throw TypeError.
Proof.
  intros Hg Hfc Ht Hc Hr; unfold highlightComparedTownsOnMap; cbn [foldM].
  unfold town_step; rewrite Hg; unfold town_geometry; rewrite Hfc, Ht; cbn [is_type String.eqb orb].
  unfold add_feature, extendBoundsFromGeometry; cbn [g_type g_coordinates]; rewrite Hc.
  cbn [String.eqb narr_truthy negb orb array_or_empty foldM bind].
  unfold extend_ring; destruct ring as [|[x|str]|xs]; simpl in Hr |- *; try discriminate;
    [destruct (Form.truthy x)|destruct (String.eqb str "")]; try discriminate; reflexivity.
Qed.

Lemma highlight_bad_ring_throws_witness :
  highlightComparedTownsOnMap
    (Some [Some (mkTown (Some (mkSource (Some "Polygon"%string) (NArr [num 5]) None)) None NNull NNull)]) =
  Throw TypeError.
Proof.
  apply (highlight_bad_ring_throws _ (mkSource (Some "Polygon"%string) (NArr [num 5]) None) (num 5) []);
    reflexivity.
Defined.

End CompareFacts.

(** ** The calculate button *)

Module AffordClickFacts.
Import Form Listings AffordClick.

Lemma json_num_eqb_refl (x : jsnum) : json_num_eqb x x = true.
Proof. destruct x; simpl; [reflexivity|apply Qeq_bool_refl|reflexivity]. Qed.

Lemma signature_eqb_refl (p : payload) : signature_eqb p p = true.
Proof. unfold signature_eqb; rewrite !json_num_eqb_refl; reflexivity. Qed.

Lemma click_sets_signature (ui : ui_state) (fs : form_state) (r : afford_response)
    (s : option (list listing)) :
  (afford_click ui fs r s = ui /\
   exists sig, lastAffordSignature ui = Some sig /\ signature_eqb (build_payload fs) sig = true) \/
  lastAffordSignature (afford_click ui fs r s) = Some (build_payload fs).
Proof.
  unfold afford_click.
  destruct (lastAffordSignature ui) as [sig|] eqn:Es.
  - case_eq (signature_eqb (build_payload fs) sig); intro Eq; simpl.
    + left; split; [destruct r; reflexivity|exists sig; split; [reflexivity|exact Eq]].
    + right; destruct r as [|mpv]; [reflexivity|].
      destruct (negb (is_nan (max_value mpv)) && js_gt0 (max_value mpv)); reflexivity.
  - right; destruct r as [|mpv]; [reflexivity|].
    destruct (negb (is_nan (max_value mpv)) && js_gt0 (max_value mpv)); reflexivity.
Qed.

Lemma click_unchanged (ui : ui_state) (fs : form_state) (sig : payload) (r : afford_response)
    (s : option (list listing)) :
  lastAffordSignature ui = Some sig -> signature_eqb (build_payload fs) sig = true ->
  afford_click ui fs r s = ui.
Proof. intros Es Eq; unfold afford_click; rewrite Es, Eq; destruct r; reflexivity. Qed.

Lemma click_repeat (ui : ui_state) (fs : form_state) (r1 r2 : afford_response)
    (s1 s2 : option (list listing)) :
  afford_click (afford_click ui fs r1 s1) fs r2 s2 = afford_click ui fs r1 s1.
Proof.
  destruct (click_sets_signature ui fs r1 s1) as [[E (sig & Es & Eq)]|Es].
  - rewrite E; exact (click_unchanged ui fs sig r2 s2 Es Eq).
  - exact (click_unchanged _ fs (build_payload fs) r2 s2 Es (signature_eqb_refl _)).
Qed.

(** Extra X14: clicking the button again with unchanged inputs never
    touches the listing markers or the stored signature, whatever the
    server answers the second time: the map is only reloaded when the
    payload's JSON differs from the last one. *)
Theorem afford_click_repeat_noop (ui : ui_state) (fs : form_state) (r1 r2 : afford_response)
    (s1 s2 : option (list listing)) :
  afford_click (afford_click ui fs r1 s1) fs r2 s2 = afford_click ui fs r1 s1.
Proof. exact (click_repeat ui fs r1 r2 s1 s2). Qed.

(** Extra X15: when the inputs changed but the calculation fails
    ([postJSON] throws or [!res.ok]), the listing markers have already
    been cleared and the new signature stored, so any retry with the
    same inputs leaves the map without listings, even when the server
    now answers with a usable [max_property_value]. *)
Theorem afford_failure_clears_listings (ui : ui_state) (fs : form_state)
    (s1 : option (list listing)) (r2 : afford_response) (s2 : option (list listing)) :
  (forall sig, lastAffordSignature ui = Some sig -> signature_eqb (build_payload fs) sig = false) ->
  listingMarkers (afford_click (afford_click ui fs AFail s1) fs r2 s2) = [].
Proof.
  intro Hch; rewrite click_repeat; unfold afford_click.
  destruct (lastAffordSignature ui) as [sig|]; [rewrite (Hch sig eq_refl)|]; reflexivity.
Qed.

Lemma afford_failure_clears_listings_witness :
  let old := [(JNum 103, JNum (135 # 100), None)] in
  let fs := mkForm (Some "7500"%string) (Some "2000"%string) (Some "3"%string)
                   (Some "25"%string) (Some "20"%string) in
  listingMarkers (afford_click (afford_click (mkUi None old) fs AFail None) fs
                    (AOk (FNum (JNum 500000))) (Some [])) = [].
Proof. apply afford_failure_clears_listings; intros sig Hs; discriminate. Defined.

End AffordClickFacts.

(** ** renderTable *)

Module TableFacts.
Import Table.

(** No underscore ([_] is code 95) and no lower-case letter (codes 97 to
    122). *)
Definition clean_char (ch : ascii) : Prop :=
  nat_of_ascii ch <> 95%nat /\ ~ (97 <= nat_of_ascii ch <= 122)%nat.

Lemma ascii_upper_clean (ch : ascii) : nat_of_ascii ch <> 95%nat -> clean_char (ascii_upper ch).
Proof.
  unfold clean_char, ascii_upper; intro H.
  case_eq ((97 <=? nat_of_ascii ch)%nat && (nat_of_ascii ch <=? 122)%nat); intro E.
  - apply andb_prop in E as [E1 E2]; apply Nat.leb_le in E1, E2.
    rewrite nat_ascii_embedding by lia; lia.
  - split; [exact H|]; intros [E1 E2].
    apply Nat.leb_le in E1, E2; rewrite E1, E2 in E; discriminate.
Qed.

Lemma header_clean (c : string) :
  forall ch, In ch (list_ascii_of_string (header c)) -> clean_char ch.
Proof.
  unfold header; induction c as [|a c IH]; simpl; intros ch Hin; [contradiction|].
  destruct Hin as [<-|Hin]; [|exact (IH ch Hin)].
  apply ascii_upper_clean.
  case_eq (Ascii.eqb a "_"%char); intro E.
  - simpl; discriminate.
  - intro H95; apply Ascii.eqb_neq in E; apply E.
    rewrite <- (ascii_nat_embedding a), H95; reflexivity.
Qed.

(** Extra X16: every column header of a rendered table is free of
    underscores and of lower-case ASCII letters: [replace(/_/g, ' ')]
    runs before [toUpperCase], which never creates an underscore. *)
Theorem renderTable_headers_clean (rows : option (list row)) (hs : list string)
    (cells : list (list cell)) :
  renderTable rows = Rendered hs cells ->
  forall h, In h hs -> forall ch, In ch (list_ascii_of_string h) -> clean_char ch.
Proof.
  unfold renderTable; intro E.
  destruct rows as [[|r0 rs]|]; try discriminate.
  injection E as <- _; intros h Hh.
  apply in_map_iff in Hh as (c & <- & _); apply header_clean.
Qed.

Lemma renderTable_headers_clean_witness : clean_char "R"%char.
Proof.
  apply (renderTable_headers_clean
           (Some [[("resale_price"%string, VNum (Form.JNum 500000)); ("flat_type"%string, VStr "4 ROOM")]])
           ["RESALE PRICE"; "FLAT TYPE"]%string
           [[CellMoney (Form.JNum 500000); CellRaw (VStr "4 ROOM")]] eq_refl "RESALE PRICE"%string).
  - left; reflexivity.
  - left; reflexivity.
Defined.

End TableFacts.
